(** * add-alias-plugin: alias discovery and front-matter merge

    A shallow embedding of [src/main.ts] (the current plugin) and of the
    earlier revision of the same file kept as [src/unnamed/part_000].

    - Strings are JavaScript strings: sequences of UTF-16 code units.
    - Values of type [any] (what [JSON.parse], [response.json()] and the
      metadata cache hand back) are [JsValue]s.
    - The plugin's effects (notices, console output, the HTTP request, the
      front-matter update) are recorded, in order, as a list of [Event]s by
      a small writer/exception monad [M].
    - The host's [vault.read] and [processFrontMatter] are taken to
      resolve; [fetch] and [response.json()] may fail. *)

From Stdlib Require Import List NArith ZArith Bool Ascii String DecimalString Lia.
Import ListNotations.

Set Implicit Arguments.

(** ** JavaScript strings *)

Module JsString.

Local Open Scope N_scope.

Definition code_unit := N.
Definition jsstring := list code_unit.

(** Source literals are written as Rocq strings (UTF-8 bytes) and decoded to
    UTF-16 code units. *)
Fixpoint utf16_of_utf8 (bs : list N) : jsstring :=
  match bs with
  | [] => []
  | b0 :: r0 =>
    if b0 <? 128 then b0 :: utf16_of_utf8 r0
    else match r0 with
    | [] => [65533]
    | b1 :: r1 =>
      if b0 <? 224 then ((b0 - 192) * 64 + (b1 - 128)) :: utf16_of_utf8 r1
      else match r1 with
      | [] => [65533]
      | b2 :: r2 =>
        if b0 <? 240
        then ((b0 - 224) * 4096 + (b1 - 128) * 64 + (b2 - 128)) :: utf16_of_utf8 r2
        else match r2 with
        | [] => [65533]
        | b3 :: r3 =>
          let cp := (b0 - 240) * 262144 + (b1 - 128) * 4096
                    + (b2 - 128) * 64 + (b3 - 128) - 65536 in
          (55296 + cp / 1024) :: (56320 + cp mod 1024) :: utf16_of_utf8 r3
        end
      end
    end
  end.

Definition js (s : string) : jsstring :=
  utf16_of_utf8 (map N_of_ascii (list_ascii_of_string s)).
Arguments js : simpl never.

Definition eqb (s t : jsstring) : bool :=
  if list_eq_dec N.eq_dec s t then true else false.
Arguments eqb : simpl never.

(** [WhiteSpace] and [LineTerminator] of ECMAScript: what
    [String.prototype.trim] removes. *)
Definition is_whitespace (c : code_unit) : bool :=
  ((9 <=? c) && (c <=? 13)) || (c =? 32) || (c =? 160) || (c =? 5760)
  || ((8192 <=? c) && (c <=? 8202)) || (c =? 8232) || (c =? 8233)
  || (c =? 8239) || (c =? 8287) || (c =? 12288) || (c =? 65279).

Fixpoint trimStart (s : jsstring) : jsstring :=
  match s with
  | [] => []
  | c :: r => if is_whitespace c then trimStart r else s
  end.

Definition trimEnd (s : jsstring) : jsstring := rev (trimStart (rev s)).

(** [s.trim()] *)
Definition trim (s : jsstring) : jsstring := trimEnd (trimStart s).

(** [s.split(sep)] for a separator of one code unit: the segments between
    the occurrences of [sep], empty ones included; never the empty list. *)
Fixpoint split (sep : code_unit) (s : jsstring) : list jsstring :=
  match s with
  | [] => [[]]
  | c :: r =>
    if c =? sep then [] :: split sep r
    else match split sep r with
         | seg :: segs => (c :: seg) :: segs
         | [] => [[c]]
         end
  end.

(** [segs.join(sep)], the inverse reading of [split]. *)
Fixpoint join (sep : code_unit) (segs : list jsstring) : jsstring :=
  match segs with
  | [] => []
  | [seg] => seg
  | seg :: rest => seg ++ sep :: join sep rest
  end.

(** [s.substring(0, n)] for an integer [n]: the end index is clamped to
    [0 .. s.length]. *)
Definition substring0 (s : jsstring) (n : Z) : jsstring :=
  firstn (Z.to_nat n) s.

(** [s.length] *)
Definition jslength (s : jsstring) : Z := Z.of_nat (List.length s).

(** The iteration of a string ([...s]): by code point, a surrogate pair
    staying together. *)
Definition is_high_surrogate (c : code_unit) : bool := (55296 <=? c) && (c <=? 56319).
Definition is_low_surrogate (c : code_unit) : bool := (56320 <=? c) && (c <=? 57343).

Fixpoint code_points (s : jsstring) : list jsstring :=
  match s with
  | [] => []
  | c :: r =>
    match r with
    | d :: r' =>
      if is_high_surrogate c && is_low_surrogate d
      then [c; d] :: code_points r'
      else [c] :: code_points r
    | [] => [[c]]
    end
  end.

End JsString.

Import JsString.

(** ** Values of type [any] *)

(** JSON data as the runtime holds it, plus [undefined] (what reading a
    missing property gives).  A number [JNum m e] stands for the double
    nearest to [m * 10^e]; an object keeps its members in source order, a
    repeated key being read at its last occurrence. *)
#[local] Unset Elimination Schemes.
Inductive JsValue : Type :=
| JUndefined
| JNull
| JBool (b : bool)
| JNum (m e : Z)
| JStr (s : jsstring)
| JArr (elements : list JsValue)
| JObj (members : list (jsstring * JsValue)).
#[local] Set Elimination Schemes.

(** The exceptions the plugin can meet. *)
Inductive Exn : Type :=
| SyntaxError   (* JSON.parse, response.json() *)
| TypeError     (* property of undefined/null, call of a non-function, spread of a non-iterable *)
| FetchFailed.  (* fetch rejected: the request did not reach the endpoint *)

(** ** JSON.parse *)

Module Json.

Local Open Scope N_scope.

Inductive Parsed (A : Type) : Type :=
| POk (a : A) (rest : jsstring)
| PSyntaxError
| POutOfFuel.
Arguments PSyntaxError {A}.
Arguments POutOfFuel {A}.

(** JSON white space: tab, line feed, carriage return, space. *)
Definition is_json_ws (c : code_unit) : bool :=
  (c =? 9) || (c =? 10) || (c =? 13) || (c =? 32).

Fixpoint skip_ws (s : jsstring) : jsstring :=
  match s with
  | c :: r => if is_json_ws c then skip_ws r else s
  | [] => []
  end.

Definition is_digit (c : code_unit) : bool := (48 <=? c) && (c <=? 57).

Definition hex_digit (c : code_unit) : option N :=
  if is_digit c then Some (c - 48)
  else if (97 <=? c) && (c <=? 102) then Some (c - 87)
  else if (65 <=? c) && (c <=? 70) then Some (c - 55)
  else None.

Definition hex4 (a b c d : code_unit) : option code_unit :=
  match hex_digit a, hex_digit b, hex_digit c, hex_digit d with
  | Some x, Some y, Some z, Some w => Some (((x * 16 + y) * 16 + z) * 16 + w)
  | _, _, _, _ => None
  end.

(** The single-character escapes: quote, backslash, slash, b, f, n, r, t. *)
Definition unescape (c : code_unit) : option code_unit :=
  if c =? 34 then Some 34
  else if c =? 92 then Some 92
  else if c =? 47 then Some 47
  else if c =? 98 then Some 8
  else if c =? 102 then Some 12
  else if c =? 110 then Some 10
  else if c =? 114 then Some 13
  else if c =? 116 then Some 9
  else None.

(** The characters of a string literal, after its opening quote, up to and
    including the closing quote. *)
Fixpoint parse_chars (s : jsstring) : option (jsstring * jsstring) :=
  match s with
  | [] => None
  | c :: r =>
    if c =? 34 then Some ([], r)
    else if c =? 92 then
      match r with
      | [] => None
      | x :: r1 =>
        if x =? 117 then
          match r1 with
          | h1 :: h2 :: h3 :: h4 :: r2 =>
            match hex4 h1 h2 h3 h4, parse_chars r2 with
            | Some u, Some (str, rest) => Some (u :: str, rest)
            | _, _ => None
            end
          | _ => None
          end
        else
          match unescape x, parse_chars r1 with
          | Some u, Some (str, rest) => Some (u :: str, rest)
          | _, _ => None
          end
      end
    else if c <? 32 then None
    else match parse_chars r with
         | Some (str, rest) => Some (c :: str, rest)
         | None => None
         end
  end.

Fixpoint take_digits (s : jsstring) : list N * jsstring :=
  match s with
  | c :: r =>
    if is_digit c then let (ds, rest) := take_digits r in ((c - 48) :: ds, rest)
    else ([], s)
  | [] => ([], [])
  end.

Definition digits_value (ds : list N) : Z :=
  fold_left (fun acc d => (10 * acc + Z.of_N d)%Z) ds 0%Z.

(** The integer part: a lone [0], or a digit string that does not start
    with [0]. *)
Definition parse_int (s : jsstring) : option (list N * jsstring) :=
  match s with
  | c :: r =>
    if c =? 48 then Some ([0], r)
    else if is_digit c then Some (take_digits s)
    else None
  | [] => None
  end.

Definition parse_frac (s : jsstring) : option (list N * jsstring) :=
  match s with
  | c :: r =>
    if c =? 46 then
      match take_digits r with
      | ([], _) => None
      | (ds, rest) => Some (ds, rest)
      end
    else Some ([], s)
  | [] => Some ([], [])
  end.

Definition parse_exp (s : jsstring) : option (Z * jsstring) :=
  match s with
  | c :: r =>
    if (c =? 101) || (c =? 69) then
      let (neg, r1) :=
        match r with
        | sg :: r' => if sg =? 45 then (true, r')
                      else if sg =? 43 then (false, r') else (false, r)
        | [] => (false, r)
        end in
      match take_digits r1 with
      | ([], _) => None
      | (ds, rest) =>
        Some (if neg then (- digits_value ds)%Z else digits_value ds, rest)
      end
    else Some (0%Z, s)
  | [] => Some (0%Z, [])
  end.

Definition parse_number (s : jsstring) : option (JsValue * jsstring) :=
  let (neg, s1) :=
    match s with
    | c :: r => if c =? 45 then (true, r) else (false, s)
    | [] => (false, s)
    end in
  match parse_int s1 with
  | None => None
  | Some (ip, s2) =>
    match parse_frac s2 with
    | None => None
    | Some (fp, s3) =>
      match parse_exp s3 with
      | None => None
      | Some (ex, s4) =>
        let m := digits_value (ip ++ fp) in
        Some (JNum (if neg then - m else m)%Z
                   (ex - Z.of_nat (List.length fp))%Z, s4)
      end
    end
  end.

Fixpoint strip_prefix (p s : jsstring) : option jsstring :=
  match p, s with
  | [], _ => Some s
  | a :: p', b :: s' => if a =? b then strip_prefix p' s' else None
  | _ :: _, [] => None
  end.

Definition parse_literal (s : jsstring) : option (JsValue * jsstring) :=
  match strip_prefix (js "true") s with
  | Some r => Some (JBool true, r)
  | None =>
    match strip_prefix (js "false") s with
    | Some r => Some (JBool false, r)
    | None =>
      match strip_prefix (js "null") s with
      | Some r => Some (JNull, r)
      | None => parse_number s
      end
    end
  end.

Definition of_option {A} (o : option (A * jsstring)) : Parsed A :=
  match o with
  | Some (a, r) => POk a r
  | None => PSyntaxError
  end.

(** Recursive descent.  [fuel] bounds the nesting of calls; [JSON_parse]
    passes enough of it (lemma [parse_value_fuel]). *)
Fixpoint parse_value (fuel : nat) (s : jsstring) : Parsed JsValue :=
  match fuel with
  | O => POutOfFuel
  | S f =>
    match skip_ws s with
    | [] => PSyntaxError
    | c :: r =>
      if c =? 34 then
        match parse_chars r with
        | Some (str, rest) => POk (JStr str) rest
        | None => PSyntaxError
        end
      else if c =? 91 then
        match skip_ws r with
        | c' :: r' =>
          if c' =? 93 then POk (JArr []) r'
          else match parse_elements f r with
               | POk vs rest => POk (JArr vs) rest
               | PSyntaxError => PSyntaxError
               | POutOfFuel => POutOfFuel
               end
        | [] => PSyntaxError
        end
      else if c =? 123 then
        match skip_ws r with
        | c' :: r' =>
          if c' =? 125 then POk (JObj []) r'
          else match parse_members f r with
               | POk ms rest => POk (JObj ms) rest
               | PSyntaxError => PSyntaxError
               | POutOfFuel => POutOfFuel
               end
        | [] => PSyntaxError
        end
      else of_option (parse_literal (c :: r))
    end
  end

with parse_elements (fuel : nat) (s : jsstring) : Parsed (list JsValue) :=
  match fuel with
  | O => POutOfFuel
  | S f =>
    match parse_value f s with
    | POk v r =>
      match skip_ws r with
      | c :: r' =>
        if c =? 44 then
          match parse_elements f r' with
          | POk vs rest => POk (v :: vs) rest
          | PSyntaxError => PSyntaxError
          | POutOfFuel => POutOfFuel
          end
        else if c =? 93 then POk [v] r'
        else PSyntaxError
      | [] => PSyntaxError
      end
    | PSyntaxError => PSyntaxError
    | POutOfFuel => POutOfFuel
    end
  end

with parse_members (fuel : nat) (s : jsstring) : Parsed (list (jsstring * JsValue)) :=
  match fuel with
  | O => POutOfFuel
  | S f =>
    match skip_ws s with
    | q :: r0 =>
      if q =? 34 then
        match parse_chars r0 with
        | Some (key, r1) =>
          match skip_ws r1 with
          | colon :: r2 =>
            if colon =? 58 then
              match parse_value f r2 with
              | POk v r =>
                match skip_ws r with
                | c :: r' =>
                  if c =? 44 then
                    match parse_members f r' with
                    | POk ms rest => POk ((key, v) :: ms) rest
                    | PSyntaxError => PSyntaxError
                    | POutOfFuel => POutOfFuel
                    end
                  else if c =? 125 then POk [(key, v)] r'
                  else PSyntaxError
                | [] => PSyntaxError
                end
              | PSyntaxError => PSyntaxError
              | POutOfFuel => POutOfFuel
              end
            else PSyntaxError
          | [] => PSyntaxError
          end
        | None => PSyntaxError
        end
      else PSyntaxError
    | [] => PSyntaxError
    end
  end.

(** [JSON.parse(text)]: the value, or a [SyntaxError]. *)
Definition JSON_parse (text : jsstring) : Exn + JsValue :=
  match parse_value (2 * List.length text + 2) text with
  | POk v rest =>
    match skip_ws rest with
    | [] => inr v
    | _ :: _ => inl SyntaxError
    end
  | _ => inl SyntaxError
  end.

End Json.

Import Json.

(** ** Operations of the runtime on [any] values *)

Module Js.

(** How an evaluation ends.  [Unmodelled] marks the few coercions of
    ECMAScript this development does not embed (a number rendered as text;
    a string, array or object compared with a number; a [Set] holding
    something else than strings): a run that needs one ends there. *)
Inductive Completion (A : Type) : Type :=
| Normal (a : A)
| Throw (e : Exn)
| Unmodelled.
Arguments Throw {A} e.
Arguments Unmodelled {A}.

Definition dq : jsstring := [34%N].
Definition nl : jsstring := [10%N].
Definition comma : code_unit := 44%N.

(** Own member of an object; a repeated key is read at its last occurrence. *)
Fixpoint find_member (key : jsstring) (ms : list (jsstring * JsValue)) : option JsValue :=
  match ms with
  | [] => None
  | (k, v) :: rest =>
    match find_member key rest with
    | Some later => Some later
    | None => if eqb k key then Some v else None
    end
  end.

(** A property key that is an array index: [0], or digits with no leading
    zero. *)
Definition array_index (key : jsstring) : option nat :=
  match key with
  | [] => None
  | c :: r =>
    if forallb is_digit key && (negb (N.eqb c 48) || match r with [] => true | _ => false end)
    then Some (Z.to_nat (digits_value (map (fun d => (d - 48)%N) key)))
    else None
  end.

(** [v[key]] and [v.key], for the keys the plugin reads ([choices], [0],
    [message], [content], [error], [length], [aliases]); no prototype
    defines any of them but [length], which strings and arrays own. *)
Definition get (v : JsValue) (key : jsstring) : Completion JsValue :=
  match v with
  | JUndefined | JNull => Throw TypeError
  | JBool _ | JNum _ _ => Normal JUndefined
  | JStr s =>
    if eqb key (js "length") then Normal (JNum (jslength s) 0)
    else match array_index key with
         | Some i => match nth_error s i with
                     | Some c => Normal (JStr [c])
                     | None => Normal JUndefined
                     end
         | None => Normal JUndefined
         end
  | JArr l =>
    if eqb key (js "length") then Normal (JNum (Z.of_nat (List.length l)) 0)
    else match array_index key with
         | Some i => match nth_error l i with
                     | Some x => Normal x
                     | None => Normal JUndefined
                     end
         | None => Normal JUndefined
         end
  | JObj ms =>
    match find_member key ms with
    | Some x => Normal x
    | None => Normal JUndefined
    end
  end.

(** [v.trim()]: only a string has a callable [trim]. *)
Definition call_trim (v : JsValue) : Completion jsstring :=
  match v with
  | JStr s => Normal (trim s)
  | _ => Throw TypeError
  end.

(** The decimal [m * 10^e] is nearer to zero than to the least positive
    double, [2^-1074]. *)
Definition rounds_to_zero (m e : Z) : bool :=
  (m =? 0)%Z || ((e <? 0)%Z && (Z.abs m * 2 ^ 1075 <=? 10 ^ (- e))%Z).

(** [ToBoolean] *)
Definition truthy (v : JsValue) : bool :=
  match v with
  | JUndefined | JNull => false
  | JBool b => b
  | JNum m e => negb (rounds_to_zero m e)
  | JStr s => match s with [] => false | _ :: _ => true end
  | JArr _ | JObj _ => true
  end.

(** [v > 0] *)
Definition gt_zero (v : JsValue) : Completion bool :=
  match v with
  | JUndefined | JNull => Normal false
  | JBool b => Normal b
  | JNum m e => Normal ((0 <? m)%Z && negb (rounds_to_zero m e))
  | JStr _ | JArr _ | JObj _ => Unmodelled
  end.

Definition isArray (v : JsValue) : bool :=
  match v with JArr _ => true | _ => false end.

Definition is_string (v : JsValue) : bool :=
  match v with JStr _ => true | _ => false end.

(** [...v]: the elements [v] iterates over. *)
Definition spread (v : JsValue) : Completion (list JsValue) :=
  match v with
  | JArr l => Normal l
  | JStr s => Normal (map JStr (code_points s))
  | _ => Throw TypeError
  end.

(** [ToString], as a template literal applies it. *)
Fixpoint ToString (v : JsValue) : Completion jsstring :=
  match v with
  | JUndefined => Normal (js "undefined")
  | JNull => Normal (js "null")
  | JBool b => Normal (if b then js "true" else js "false")
  | JNum _ _ => Unmodelled
  | JStr s => Normal s
  | JArr l =>
    (fix joined (l : list JsValue) : Completion jsstring :=
       match l with
       | [] => Normal []
       | x :: rest =>
         match (match x with
                | JUndefined | JNull => Normal []
                | _ => ToString x
                end) with
         | Normal sx =>
           match rest with
           | [] => Normal sx
           | _ :: _ =>
             match joined rest with
             | Normal sr => Normal (sx ++ comma :: sr)
             | Throw e => Throw e
             | Unmodelled => Unmodelled
             end
           end
         | Throw e => Throw e
         | Unmodelled => Unmodelled
         end
       end) l
  | JObj ms =>
    match find_member (js "toString") ms with
    | Some _ => Throw TypeError
    | None => Normal (js "[object Object]")
    end
  end.

Fixpoint strings_of (l : list JsValue) : option (list jsstring) :=
  match l with
  | [] => Some []
  | JStr s :: rest =>
    match strings_of rest with
    | Some ss => Some (s :: ss)
    | None => None
    end
  | _ :: _ => None
  end.

Definition has (s : jsstring) (set : list jsstring) : bool :=
  existsb (eqb s) set.

(** [Array.from(new Set(l))] on strings: the members in insertion order,
    a value already present not being added again. *)
Definition Array_from_Set (l : list jsstring) : list jsstring :=
  fold_left (fun set x => if has x set then set else set ++ [x]) l [].

End Js.

Import Js.

(** ** The host and the plugin's effects *)

Record TFile : Type := { basename : jsstring; path : jsstring }.

(** [interface AddAliasPluginSettings] *)
Record AddAliasPluginSettings : Type :=
  { openaiApiKey : jsstring; maxContentLength : Z }.

(** The body of the POST to the chat-completion endpoint, with the bearer
    token of its [Authorization] header. *)
Record Request : Type :=
  { url : jsstring;
    authorization : jsstring;
    model : jsstring;
    system_content : jsstring;
    user_content : jsstring;
    max_tokens : Z;
    temperature : JsValue }.

(** What [fetch] resolves to: [ok], and what [response.json()] gives. *)
Record Response : Type := { ok : bool; json : Exn + JsValue }.

(** An entry of the metadata cache: [frontmatter] is absent or an object. *)
Record CachedMetadata : Type :=
  { frontmatter : option (list (jsstring * JsValue)) }.

(** The host application and the network, as one invocation sees them. *)
Record World : Type :=
  { getActiveFile : option TFile;
    settings : AddAliasPluginSettings;
    vault_read : TFile -> jsstring;
    getFileCache : TFile -> option CachedMetadata;
    fetch : Request -> option Response   (* [None]: the promise rejects *) }.

Inductive LogArg : Type :=
| LogValue (v : JsValue)
| LogError (e : Exn).

Inductive Event : Type :=
| Notice (message : jsstring)
| ConsoleError (label : jsstring) (arg : LogArg)
| Fetch (req : Request)
| ProcessFrontMatter (file : TFile) (aliases : list jsstring).

(** Computations: the events emitted so far, oldest first, and how the
    computation ended. *)
Definition M (A : Type) : Type := list Event * Completion A.

Definition ret {A} (a : A) : M A := ([], Normal a).

Definition bind {A B} (m : M A) (k : A -> M B) : M B :=
  match m with
  | (t, Normal a) => let (t', r) := k a in (t ++ t', r)
  | (t, Throw e) => (t, Throw e)
  | (t, Unmodelled) => (t, Unmodelled)
  end.

Definition emit (ev : Event) : M unit := ([ev], Normal tt).

Definition lift {A} (c : Completion A) : M A := ([], c).

Definition of_sum {A} (r : Exn + A) : M A :=
  match r with
  | inl e => ([], Throw e)
  | inr a => ([], Normal a)
  end.

(** [try { m } catch (error) { handler error }] *)
Definition try_catch {A} (m : M A) (handler : Exn -> M A) : M A :=
  match m with
  | (t, Throw e) => let (t', r) := handler e in (t ++ t', r)
  | _ => m
  end.

Declare Scope plugin_scope.
Delimit Scope plugin_scope with plugin.
Notation "x <- m ;; k" := (bind m (fun x => k))
  (at level 61, m at next level, right associativity) : plugin_scope.
Notation "m ;; k" := (bind m (fun _ => k))
  (at level 61, right associativity) : plugin_scope.
Local Open Scope plugin_scope.

Definition trace {A} (m : M A) : list Event := fst m.
Definition completion {A} (m : M A) : Completion A := snd m.

Definition is_fetch (ev : Event) : bool :=
  match ev with Fetch _ => true | _ => false end.

Definition is_write (ev : Event) : bool :=
  match ev with ProcessFrontMatter _ _ => true | _ => false end.

Definition notices (t : list Event) : list jsstring :=
  flat_map (fun ev => match ev with Notice msg => [msg] | _ => [] end) t.

(** ** src/main.ts *)

(** [fileContent.replace(/^---\n[\s\S]*?\n---\n/, '')]: when the text
    starts with the opening fence, the lazy quantifier stops at the first
    closing fence after it, and the match is dropped; otherwise the text is
    returned as it is. *)
Definition fence_open : jsstring := js "---" ++ nl.
Definition fence_close : jsstring := nl ++ js "---" ++ nl.

Fixpoint after_first (pat s : jsstring) : option jsstring :=
  match strip_prefix pat s with
  | Some rest => Some rest
  | None =>
    match s with
    | [] => None
    | _ :: r => after_first pat r
    end
  end.

Definition remove_front_matter (fileContent : jsstring) : jsstring :=
  match strip_prefix fence_open fileContent with
  | Some r =>
    match after_first fence_close r with
    | Some rest => rest
    | None => fileContent
    end
  | None => fileContent
  end.

(** Lines 50-54: the length cap. *)
Definition limit_content (fileContent : jsstring) (maxContentLength : Z) : jsstring :=
  if (jslength fileContent >? maxContentLength)%Z
  then substring0 fileContent maxContentLength
  else fileContent.

(** Lines 112-122: the reply as JSON when it parses, else split at commas,
    each segment trimmed. *)
Definition parse_reply (content : jsstring) : JsValue :=
  match JSON_parse content with
  | inr aliasesArray => aliasesArray
  | inl _ => JArr (map (fun s => JStr (trim s)) (split comma content))
  end.

(** [data.choices[0].message.content.trim()] *)
Definition message_content (data : JsValue) : Completion jsstring :=
  match get data (js "choices") with
  | Normal choices =>
    match get choices (js "0") with
    | Normal choice =>
      match get choice (js "message") with
      | Normal message =>
        match get message (js "content") with
        | Normal content => call_trim content
        | Throw e => Throw e | Unmodelled => Unmodelled
        end
      | Throw e => Throw e | Unmodelled => Unmodelled
      end
    | Throw e => Throw e | Unmodelled => Unmodelled
    end
  | Throw e => Throw e | Unmodelled => Unmodelled
  end.

(** [errorData.error.message] *)
Definition error_message (errorData : JsValue) : Completion JsValue :=
  match get errorData (js "error") with
  | Normal err => get err (js "message")
  | Throw e => Throw e | Unmodelled => Unmodelled
  end.

Definition endpoint : jsstring := js "https://api.openai.com/v1/chat/completions".

Definition do_fetch (w : World) (req : Request) : M Response :=
  emit (Fetch req) ;;
  match fetch w req with
  | Some response => ret response
  | None => lift (Throw FetchFailed)
  end.

Definition msg_no_file : jsstring := js "Нет открытого файла".
Definition msg_no_key : jsstring :=
  js "Пожалуйста, введите ваш OpenAI API ключ в настройках плагина".
Definition msg_updated : jsstring := js "Алиасы обновлены".
Definition msg_no_aliases : jsstring := js "Не удалось получить алиасы".
Definition msg_api_error : jsstring := js "Ошибка OpenAI API: ".
Definition msg_connection : jsstring :=
  js "Ошибка при обращении к OpenAI API. Проверьте подключение к интернету.".
Definition log_api_error : jsstring := js "Ошибка OpenAI API:".
Definition log_request_error : jsstring := js "Ошибка при обращении к OpenAI API:".

Definition alias_prompt (title content : jsstring) : jsstring :=
  js "На основе следующего текста заметки предложи возможные алиасы основанные на 1) синонимах и склонения и альтернативные названия Заголовок заметки 2) другие термины описанные в данной заметки 3) названия на английском языке. Возвращай ответ в формате JSON массива строк или в виде одной строки, где алиасы разделены запятыми. Не добавляй никакой дополнительной информации."
  ++ nl ++ nl
  ++ js "Заголовок заметки: " ++ dq ++ title ++ dq ++ nl ++ nl
  ++ js "Содержимое заметки:" ++ nl
  ++ content ++ nl ++ nl
  ++ js "Пример ответа: [" ++ dq ++ js "алиас1" ++ dq ++ js ", " ++ dq ++ js "алиас2" ++ dq
  ++ js ", " ++ dq ++ js "алиас3" ++ dq ++ js "] или " ++ dq
  ++ js "алиас1, алиас2, алиас3" ++ dq ++ js ".".

Definition alias_request (apiKey title content : jsstring) : Request :=
  {| url := endpoint;
     authorization := js "Bearer " ++ apiKey;
     model := js "gpt-4o-mini";
     system_content := js "Вы опытный лингвист и эксперт по семантике, который помогает создавать релевантные алиасы для заметок. Возвращайте только запрошенные данные в нужном формате JSON без дополнительного текста.";
     user_content := alias_prompt title content;
     max_tokens := 200;
     temperature := JNum 7 (-1) |}.

(** [async getAliases(title, content)] *)
Definition getAliases (w : World) (title content : jsstring) : M JsValue :=
  try_catch
    (response <- do_fetch w (alias_request (openaiApiKey (settings w)) title content) ;;
     if negb (ok response) then
       errorData <- of_sum (json response) ;;
       emit (ConsoleError log_api_error (LogValue errorData)) ;;
       message <- lift (error_message errorData) ;;
       text <- lift (ToString message) ;;
       emit (Notice (msg_api_error ++ text)) ;;
       ret (JArr [])
     else
       data <- of_sum (json response) ;;
       content <- lift (message_content data) ;;
       ret (parse_reply content))
    (fun error =>
       emit (ConsoleError log_request_error (LogError error)) ;;
       emit (Notice msg_connection) ;;
       ret (JArr [])).

(** Lines 132-144: the aliases the cache holds, as an array. *)
Definition existingAliases (fileCache : option CachedMetadata) : list JsValue :=
  match fileCache with
  | Some {| frontmatter := Some fm |} =>
    let fmAliases :=
      match find_member (js "aliases") fm with
      | Some v => v
      | None => JUndefined
      end in
    if truthy fmAliases then
      match fmAliases with
      | JArr l => l
      | JStr s => [JStr s]
      | _ => []
      end
    else []
  | _ => []
  end.

(** Line 147: [Array.from(new Set([...existingAliases, ...aliasesArray]))] *)
Definition combinedAliases (existing : list JsValue) (aliasesArray : JsValue)
  : Completion (list jsstring) :=
  match spread aliasesArray with
  | Normal discovered =>
    match strings_of (existing ++ discovered) with
    | Some all => Normal (Array_from_Set all)
    | None => Unmodelled
    end
  | Throw e => Throw e
  | Unmodelled => Unmodelled
  end.

(** [async updateFrontMatter(file, aliasesArray)] *)
Definition updateFrontMatter (w : World) (file : TFile) (aliasesArray : JsValue) : M unit :=
  let fileCache := getFileCache w file in
  combined <- lift (combinedAliases (existingAliases fileCache) aliasesArray) ;;
  emit (ProcessFrontMatter file combined).

(** [aliasesArray && aliasesArray.length > 0] *)
Definition has_aliases (aliasesArray : JsValue) : Completion bool :=
  if truthy aliasesArray then
    match get aliasesArray (js "length") with
    | Normal len => gt_zero len
    | Throw e => Throw e
    | Unmodelled => Unmodelled
    end
  else Normal false.

(** [async addAliases()] *)
Definition addAliases (w : World) : M unit :=
  match getActiveFile w with
  | None => emit (Notice msg_no_file)
  | Some activeFile =>
    let title := basename activeFile in
    match openaiApiKey (settings w) with
    | [] => emit (Notice msg_no_key)
    | _ :: _ =>
      let fileContent := vault_read w activeFile in
      let fileContent := remove_front_matter fileContent in
      let fileContent := limit_content fileContent (maxContentLength (settings w)) in
      aliasesArray <- getAliases w title fileContent ;;
      found <- lift (has_aliases aliasesArray) ;;
      if found then
        updateFrontMatter w activeFile aliasesArray ;;
        emit (Notice msg_updated)
      else emit (Notice msg_no_aliases)
    end
  end.

(** ** src/unnamed/part_000: the earlier revision

    It sends the title alone, asks for declensions, and shows no notice for
    a failed request.  Its [updateFrontMatter] (lines 106-129) is the text
    of the one above, which is used here as it is. *)

Module Part000.

Definition declension_prompt (title : jsstring) : jsstring :=
  js "Составь все возможные формы склонения для названия " ++ dq ++ title ++ dq
  ++ js " и верни их в формате JSON массива строк или в виде одной строки, где формы разделены запятыми. Не добавляй никакой дополнительной информации. Пример: ["
  ++ dq ++ js "форма1" ++ dq ++ js ", " ++ dq ++ js "форма2" ++ dq ++ js ", " ++ dq
  ++ js "форма3" ++ dq ++ js "] или " ++ dq ++ js "форма1, форма2, форма3" ++ dq ++ js ".".

Definition declension_request (apiKey title : jsstring) : Request :=
  {| url := endpoint;
     authorization := js "Bearer " ++ apiKey;
     model := js "gpt-3.5-turbo";
     system_content := js "Вы опытный лингвист, который помогает создавать формы склонения слов. Возвращайте только запрошенные данные в нужном формате без дополнительного текста.";
     user_content := declension_prompt title;
     max_tokens := 200;
     temperature := JNum 0 0 |}.

(** [async getDeclensions(title)] *)
Definition getDeclensions (w : World) (title : jsstring) : M JsValue :=
  try_catch
    (response <- do_fetch w (declension_request (openaiApiKey (settings w)) title) ;;
     data <- of_sum (json response) ;;
     if ok response then
       content <- lift (message_content data) ;;
       ret (parse_reply content)
     else
       emit (ConsoleError log_api_error (LogValue data)) ;;
       ret (JArr []))
    (fun error =>
       emit (ConsoleError log_request_error (LogError error)) ;;
       ret (JArr [])).

(** [async addAliases()] *)
Definition addAliases (w : World) : M unit :=
  match getActiveFile w with
  | None => emit (Notice msg_no_file)
  | Some activeFile =>
    let title := basename activeFile in
    match openaiApiKey (settings w) with
    | [] => emit (Notice msg_no_key)
    | _ :: _ =>
      aliasesArray <- getDeclensions w title ;;
      found <- lift (has_aliases aliasesArray) ;;
      if found then
        updateFrontMatter w activeFile aliasesArray ;;
        emit (Notice msg_updated)
      else emit (Notice msg_no_aliases)
    end
  end.

End Part000.

(** ** The specification's vocabulary *)

(** The alias collection a document holds, as the data model has it:
    absent, a single string, or a sequence of strings. *)
Inductive Existing : Type :=
| Absent
| Single (s : jsstring)
| Sequence (l : list jsstring).

(** The value the metadata cache holds for it. *)
Definition fm_value (x : Existing) : JsValue :=
  match x with
  | Absent => JUndefined
  | Single s => JStr s
  | Sequence l => JArr (map JStr l)
  end.

(** Normalization as the specification words it: absent gives the empty
    sequence, a single string a one-element sequence, a sequence itself. *)
Definition normalize (x : Existing) : list jsstring :=
  match x with
  | Absent => []
  | Single s => [s]
  | Sequence l => l
  end.

(** Deduplication as the specification words it: by exact equality, the
    first occurrence of each value kept, the order of the kept ones
    unchanged.  [seen] are the values met so far. *)
Fixpoint keep_first (seen l : list jsstring) : list jsstring :=
  match l with
  | [] => []
  | x :: rest =>
    if has x seen then keep_first seen rest
    else x :: keep_first (x :: seen) rest
  end.

Definition dedup (l : list jsstring) : list jsstring := keep_first [] l.

(** A cache entry whose front matter holds [aliases: v] (no [aliases] key
    when [v] is [undefined]). *)
Definition cache_with (v : JsValue) : option CachedMetadata :=
  Some {| frontmatter :=
            Some (match v with
                  | JUndefined => []
                  | _ => [(js "aliases", v)]
                  end) |}.

(** The specification's [merge(existing, discovered)]: what line 147
    computes for a document whose cached [aliases] is [fmAliases], the
    discovered aliases being the strings [discovered]. *)
Definition merge (fmAliases : JsValue) (discovered : list jsstring)
  : Completion (list jsstring) :=
  combinedAliases (existingAliases (cache_with fmAliases)) (JArr (map JStr discovered)).

(** The specification's [parse(raw)]: the comma-split, trimmed segments. *)
Definition comma_split (raw : jsstring) : list jsstring :=
  map trim (split comma raw).

(** The grammar of a JSON string literal's body: the source characters
    between the quotes, and the string they denote. *)
Inductive literal_chars : jsstring -> jsstring -> Prop :=
| lit_end : literal_chars [] []
| lit_plain c src v :
    c <> 34%N -> c <> 92%N -> (32 <= c)%N ->
    literal_chars src v -> literal_chars (c :: src) (c :: v)
| lit_escape x u src v :
    x <> 117%N -> unescape x = Some u ->
    literal_chars src v -> literal_chars (92%N :: x :: src) (u :: v)
| lit_unicode h1 h2 h3 h4 u src v :
    hex4 h1 h2 h3 h4 = Some u ->
    literal_chars src v ->
    literal_chars (92%N :: 117%N :: h1 :: h2 :: h3 :: h4 :: src) (u :: v).

(** A character that stands for itself in a literal: neither the quote nor
    the backslash, and no control character. *)
Definition plain_char (c : code_unit) : bool :=
  negb (N.eqb c 34) && negb (N.eqb c 92) && N.leb 32 c.

Definition whitespace (ws : jsstring) : Prop := Forall (fun c => is_json_ws c = true) ws.

(** The elements of a non-empty JSON array of strings, up to and including
    the closing bracket. *)
Inductive string_elements : jsstring -> list jsstring -> Prop :=
| elements_last w1 src v w2 :
    whitespace w1 -> literal_chars src v -> whitespace w2 ->
    string_elements (w1 ++ dq ++ src ++ dq ++ w2 ++ [93%N]) [v]
| elements_more w1 src v w2 tail vs :
    whitespace w1 -> literal_chars src v -> whitespace w2 ->
    string_elements tail vs ->
    string_elements (w1 ++ dq ++ src ++ dq ++ w2 ++ 44%N :: tail) (v :: vs).

(** A well-formed JSON text that is an array of strings, with the strings
    it denotes. *)
Inductive string_array : jsstring -> list jsstring -> Prop :=
| array_empty w0 w1 w2 :
    whitespace w0 -> whitespace w1 -> whitespace w2 ->
    string_array (w0 ++ 91%N :: w1 ++ 93%N :: w2) []
| array_elements w0 body vs w2 :
    whitespace w0 -> string_elements body vs -> whitespace w2 ->
    string_array (w0 ++ 91%N :: body ++ w2) vs.


(** The body excerpt the prompt embeds (lines 45-54 of [addAliases]). *)
Definition body_excerpt (w : World) (file : TFile) : jsstring :=
  limit_content (remove_front_matter (vault_read w file))
                (maxContentLength (settings w)).

(** ** Vocabulary for the orchestrator's runs *)

(** The shapes a run of [addAliases] can take once both preconditions
    hold, [f] being the active file and [t] the events of the completion
    call: [t] followed by the notice that nothing was obtained; or [t]
    followed by one write to [f] and the success notice; or [t] and nothing
    more, when an exception escapes. *)
Definition orchestrated (f : TFile) (t : list Event) (run : M unit) : Prop :=
  run = (t ++ [Notice msg_no_aliases], Normal tt)
  \/ (exists R, run = (t ++ [ProcessFrontMatter f R; Notice msg_updated], Normal tt))
  \/ (exists e, run = (t, Throw e)).

(** A value the guard of [addAliases] turns down: falsy, or without a
    [length] (numbers, booleans, objects with no such member), or of length
    zero. *)
Definition no_length (v : JsValue) : bool :=
  match v with
  | JUndefined | JNull | JBool _ | JNum _ _ => true
  | JStr s => match s with [] => true | _ :: _ => false end
  | JArr l => match l with [] => true | _ :: _ => false end
  | JObj ms => match find_member (js "length") ms with
               | None => true
               | Some _ => false
               end
  end.

(** Lines 59-64: what both revisions of [addAliases] do with the value the completion
    call returned. *)
Definition guard_and_write (w : World) (activeFile : TFile) (aliasesArray : JsValue) : M unit :=
  bind (lift (has_aliases aliasesArray))
       (fun found : bool =>
          if found
          then bind (updateFrontMatter w activeFile aliasesArray)
                    (fun _ => emit (Notice msg_updated))
          else emit (Notice msg_no_aliases)).

(** [pat] occurs in [s]. *)
Definition occurs (pat s : jsstring) : Prop := exists a b, s = a ++ pat ++ b.

(** ** Settings: loading, saving and the settings tab (main.ts) *)

(** [const DEFAULT_SETTINGS] (lines 8-11). *)
Definition DEFAULT_SETTINGS : list (jsstring * JsValue) :=
  [(js "openaiApiKey", JStr []); (js "maxContentLength", JNum 2000 0)].

Definition proto_key : jsstring := js "__proto__".

(** The decimal property key of an index. *)
Definition index_key (i : nat) : jsstring :=
  js (NilEmpty.string_of_uint (Nat.to_uint i)).

Fixpoint indexed (i : nat) (l : list JsValue) : list (jsstring * JsValue) :=
  match l with
  | [] => []
  | x :: rest => (index_key i, x) :: indexed (S i) rest
  end.

(** The own enumerable properties of a source of [Object.assign], in the
    order they are copied: the members of an object, the elements of an
    array, the code units of a string; nothing for the other values. *)
Definition own_enumerable (v : JsValue) : list (jsstring * JsValue) :=
  match v with
  | JObj ms => ms
  | JArr l => indexed 0 l
  | JStr s => indexed 0 (map (fun c => JStr [c]) s)
  | _ => []
  end.

(** [target[key] = value], on an object kept as its members in order of
    assignment (read at the last occurrence). *)
Definition set_member (target : list (jsstring * JsValue)) (key : jsstring) (value : JsValue)
  : list (jsstring * JsValue) :=
  target ++ [(key, value)].

(** Copying properties onto a plain object.  Assigning [__proto__] runs the
    setter of [Object.prototype]: it creates no property, and does nothing
    at all for a value that is neither an object nor [null]; the change of
    prototype an object value causes is not embedded. *)
Fixpoint assign_from (target props : list (jsstring * JsValue))
  : Completion (list (jsstring * JsValue)) :=
  match props with
  | [] => Normal target
  | (key, value) :: rest =>
    if eqb key proto_key then
      match value with
      | JObj _ | JArr _ => Unmodelled
      | _ => assign_from target rest
      end
    else assign_from (set_member target key value) rest
  end.

(** [Object.assign(target, ...sources)] *)
Fixpoint Object_assign (target : list (jsstring * JsValue)) (sources : list JsValue)
  : Completion (list (jsstring * JsValue)) :=
  match sources with
  | [] => Normal target
  | source :: rest =>
    match assign_from target (own_enumerable source) with
    | Normal target' => Object_assign target' rest
    | Throw e => Throw e
    | Unmodelled => Unmodelled
    end
  end.

(** [async loadSettings()] (lines 159-161):
    [Object.assign({}, DEFAULT_SETTINGS, await this.loadData())], [data]
    being what [loadData] resolves to ([null] when nothing is stored). *)
Definition loadSettings (data : JsValue) : Completion (list (jsstring * JsValue)) :=
  Object_assign [] [JObj DEFAULT_SETTINGS; data].

(** The plugin's [settings] object, and what the host has stored for it
    (what [loadData] will resolve to). *)
Record Plugin : Type :=
  { this_settings : list (jsstring * JsValue);
    stored_data : JsValue }.

(** [async saveSettings()] (lines 163-165): [saveData(this.settings)]. *)
Definition saveSettings (p : Plugin) : Plugin :=
  {| this_settings := this_settings p;
     stored_data := JObj (this_settings p) |}.

(** The settings as [addAliases] reads them, when the key is a string and
    the cap an integer a double holds exactly. *)
Definition settings_view (obj : list (jsstring * JsValue)) : option AddAliasPluginSettings :=
  match find_member (js "openaiApiKey") obj, find_member (js "maxContentLength") obj with
  | Some (JStr key), Some (JNum m e) =>
    if ((0 <=? e) && (Z.abs (m * 10 ^ e) <=? 2 ^ 53))%Z
    then Some {| openaiApiKey := key; maxContentLength := m * 10 ^ e |}
    else None
  | _, _ => None
  end.

(** The settings object that holds [s]. *)
Definition settings_object (s : AddAliasPluginSettings) : list (jsstring * JsValue) :=
  [(js "openaiApiKey", JStr (openaiApiKey s));
   (js "maxContentLength", JNum (maxContentLength s) 0)].

(** The result of [parseInt]: [NaN] or an integer ([-0] being [0]). *)
Inductive IntResult : Type :=
| NaN
| Int (z : Z).

Definition radix_digit (radix : N) (c : code_unit) : option N :=
  match hex_digit c with
  | Some d => if (d <? radix)%N then Some d else None
  | None => None
  end.

Fixpoint take_radix_digits (radix : N) (s : jsstring) : list N :=
  match s with
  | c :: r =>
    match radix_digit radix c with
    | Some d => d :: take_radix_digits radix r
    | None => []
    end
  | [] => []
  end.

Definition radix_value (radix : N) (ds : list N) : Z :=
  fold_left (fun acc d => (Z.of_N radix * acc + Z.of_N d)%Z) ds 0%Z.

(** [parseInt(string)] with no radix: leading white space is skipped, a
    sign is read, [0x] or [0X] selects base sixteen, and the longest run of
    digits is the value; no digit gives [NaN].  An integer beyond [2^53] is
    rounded to a double, which is not embedded. *)
Definition parseInt (string : jsstring) : Completion IntResult :=
  let S := trimStart string in
  let (negative, S) :=
    match S with
    | c :: r => if N.eqb c 45 then (true, r)
                else if N.eqb c 43 then (false, r) else (false, S)
    | [] => (false, S)
    end in
  let (R, S) :=
    match S with
    | z :: x :: r =>
      if N.eqb z 48 && (N.eqb x 120 || N.eqb x 88) then (16%N, r) else (10%N, S)
    | _ => (10%N, S)
    end in
  match take_radix_digits R S with
  | [] => Normal NaN
  | ds =>
    let mathInt := radix_value R ds in
    if (mathInt <=? 2 ^ 53)%Z
    then Normal (Int (if negative then - mathInt else mathInt)%Z)
    else Unmodelled
  end.

(** The text field of the API key (lines 190-193):
    [settings.openaiApiKey = value.trim(); await saveSettings()]. *)
Definition onChange_openaiApiKey (p : Plugin) (value : jsstring) : Plugin :=
  saveSettings
    {| this_settings := set_member (this_settings p) (js "openaiApiKey") (JStr (trim value));
       stored_data := stored_data p |}.

(** The text field of the maximum length (lines 203-209):
    [const num = parseInt(value); if (!isNaN(num) && num > 0) { ... }]. *)
Definition onChange_maxContentLength (p : Plugin) (value : jsstring) : Completion Plugin :=
  match parseInt value with
  | Normal (Int num) =>
    if (0 <? num)%Z then
      Normal (saveSettings
                {| this_settings :=
                     set_member (this_settings p) (js "maxContentLength") (JNum num 0);
                   stored_data := stored_data p |})
    else Normal p
  | Normal NaN => Normal p
  | Throw e => Throw e
  | Unmodelled => Unmodelled
  end.

(** ** Worlds used as examples *)

Module Examples.

Definition note : TFile := {| basename := js "Лес"; path := js "Лес.md" |}.

Definition config : AddAliasPluginSettings :=
  {| openaiApiKey := js "sk-test"; maxContentLength := 2000 |}.

(** A success body carrying [content] as the first choice's message. *)
Definition completion_body (content : jsstring) : JsValue :=
  JObj [(js "choices",
         JArr [JObj [(js "message", JObj [(js "content", JStr content)])]])].

(** A note with no front matter; the endpoint answers every request with
    [response]. *)
Definition world_with (response : option Response) : World :=
  {| getActiveFile := Some note;
     settings := config;
     vault_read := fun _ => js "Лес - это экосистема.";
     getFileCache := fun _ => Some {| frontmatter := None |};
     fetch := fun _ => response |}.

Definition world_replying (content : jsstring) : World :=
  world_with (Some {| ok := true; json := inr (completion_body content) |}).

(** The model answers with the empty string. *)
Definition world_empty_reply : World := world_replying [].

(** The model answers in the second format its prompt shows: the aliases,
    comma-separated, in double quotes. *)
Definition quoted_reply : jsstring := dq ++ js "a, b" ++ dq.
Definition world_quoted_reply : World := world_replying quoted_reply.

(** A success response whose body has no [choices]. *)
Definition world_malformed : World :=
  world_with (Some {| ok := true; json := inr (JObj []) |}).

(** The request does not reach the endpoint. *)
Definition world_offline : World := world_with None.

(** No credential configured. *)
Definition world_no_key : World :=
  {| getActiveFile := Some note;
     settings := {| openaiApiKey := []; maxContentLength := 2000 |};
     vault_read := fun _ => js "Лес - это экосистема.";
     getFileCache := fun _ => Some {| frontmatter := None |};
     fetch := fun _ => None |}.




(** A reply that is a JSON array of strings. *)
Definition array_reply : jsstring :=
  js "[" ++ dq ++ js "Оке" ++ dq ++ js ", " ++ dq ++ js "Окой" ++ dq ++ js ", "
  ++ dq ++ js "Окою" ++ dq ++ js "]".

(** Scenario A: a note titled [Ока] with no aliases; the model answers
    with a JSON array. *)
Definition oka : TFile := {| basename := js "Ока"; path := js "Ока.md" |}.

Definition world_scenario_A : World :=
  {| getActiveFile := Some oka;
     settings := config;
     vault_read := fun _ => js "Ока - река.";
     getFileCache := fun _ => Some {| frontmatter := Some [] |};
     fetch := fun _ => Some {| ok := true; json := inr (completion_body array_reply) |} |}.

(** Scenario B: existing aliases [[Лесок]]; the model answers with plain
    comma-separated text. *)
Definition world_scenario_B : World :=
  {| getActiveFile := Some note;
     settings := config;
     vault_read := fun _ => js "Лес - это экосистема.";
     getFileCache := fun _ => cache_with (JArr [JStr (js "Лесок")]);
     fetch := fun _ =>
       Some {| ok := true;
               json := inr (completion_body (js "Лесной, лесок, лесная зона")) |} |}.

(** Scenario D: the endpoint rejects the request. *)
Definition rejection_body : JsValue :=
  JObj [(js "error", JObj [(js "message", JStr (js "invalid_api_key"))])].

Definition world_scenario_D : World :=
  world_with (Some {| ok := false; json := inr rejection_body |}).

(** The model answers with a JSON number. *)
Definition world_number_reply : World := world_replying (js "42").

(** The model answers with a JSON object that has a [length]. *)
Definition world_object_reply : World :=
  world_replying (js "{" ++ dq ++ js "length" ++ dq ++ js ": 1}").

(** A front matter, and a note body that holds a horizontal rule. *)
Definition front_inner : jsstring := js "aliases: [Лесок]".
Definition ruled_rest : jsstring := js "Hello" ++ nl ++ js "---" ++ nl ++ js "world".

(** The plugin right after start-up on a fresh install. *)
Definition fresh_plugin : Plugin :=
  {| this_settings := DEFAULT_SETTINGS; stored_data := JNull |}.

(** A note whose front matter reads [aliases: 2024]. *)
Definition world_numeric_aliases : World :=
  {| getActiveFile := Some note;
     settings := config;
     vault_read := fun _ => js "Лес - это экосистема.";
     getFileCache := fun _ => cache_with (JNum 2024 0);
     fetch := fun _ => None |}.

End Examples.

(** * Properties *)

(** ** Strings *)

Lemma eqb_eq (s t : jsstring) : eqb s t = true <-> s = t.
Proof.
  unfold eqb. destruct (list_eq_dec N.eq_dec s t); split; congruence.
Qed.

Lemma eqb_refl (s : jsstring) : eqb s s = true.
Proof. now apply eqb_eq. Qed.

Lemma eqb_neq (s t : jsstring) : eqb s t = false <-> s <> t.
Proof.
  unfold eqb. destruct (list_eq_dec N.eq_dec s t); split; congruence.
Qed.

Lemma eqb_sym (s t : jsstring) : eqb s t = eqb t s.
Proof.
  destruct (eqb t s) eqn:E.
  - apply eqb_eq in E. subst. apply eqb_refl.
  - apply eqb_neq in E. apply eqb_neq. congruence.
Qed.

Lemma has_In (x : jsstring) (set : list jsstring) : has x set = true <-> In x set.
Proof.
  unfold has. rewrite existsb_exists. split.
  - intros (y & Hy & E). apply eqb_eq in E. now subst.
  - intros H. exists x. split; [assumption | apply eqb_refl].
Qed.

Lemma has_not_In (x : jsstring) (set : list jsstring) : has x set = false <-> ~ In x set.
Proof.
  rewrite <- has_In. destruct (has x set); split; congruence.
Qed.

Lemma split_not_nil (sep : code_unit) (s : jsstring) : split sep s <> [].
Proof.
  destruct s as [|c s]; simpl; [discriminate|].
  destruct (N.eqb c sep); [discriminate|].
  destruct (split sep s); discriminate.
Qed.

(** The segments, put back around the separators, are the text. *)
Lemma join_split (sep : code_unit) (s : jsstring) : join sep (split sep s) = s.
Proof.
  induction s as [|c s IH]; [reflexivity|]. simpl.
  destruct (N.eqb_spec c sep) as [->|Hne].
  - pose proof (split_not_nil sep s) as Hnn.
    destruct (split sep s) as [|seg segs]; [congruence|].
    simpl in *. now rewrite IH.
  - pose proof (split_not_nil sep s) as Hnn.
    destruct (split sep s) as [|seg segs]; [congruence|].
    destruct segs as [|seg' segs]; simpl in *; now rewrite <- IH.
Qed.



(** ** Deduplication: [new Set] against the specification's wording *)

Section Dedup.

Implicit Types (x y : jsstring) (l seen : list jsstring).

(** Only the membership of [seen] matters. *)
Lemma keep_first_ext l : forall seen seen',
  (forall y, In y seen <-> In y seen') ->
  keep_first seen l = keep_first seen' l.
Proof.
  induction l as [|x l IH]; intros seen seen' Hmem; simpl; [reflexivity|].
  assert (Hx : has x seen = has x seen').
  { destruct (has x seen') eqn:E.
    - apply has_In. apply Hmem. now apply has_In.
    - apply has_not_In. rewrite Hmem. now apply has_not_In. }
  rewrite Hx. destruct (has x seen').
  - now apply IH.
  - f_equal. apply IH. intros y. simpl. now rewrite Hmem.
Qed.

Lemma keep_first_In l : forall seen x,
  In x (keep_first seen l) <-> In x l /\ ~ In x seen.
Proof.
  induction l as [|a l IH]; intros seen x; simpl.
  - tauto.
  - destruct (has a seen) eqn:E.
    + rewrite IH. apply has_In in E. split.
      * tauto.
      * intros [[-> | H] Hn]; tauto.
    + apply has_not_In in E. simpl. rewrite IH. simpl. split.
      * intros [-> | (H & Hn)]; [tauto|]. tauto.
      * intros [[-> | H] Hn]; [tauto|].
        destruct (list_eq_dec N.eq_dec a x) as [-> | Hne]; [tauto|].
        right. tauto.
Qed.

Lemma keep_first_NoDup l : forall seen, NoDup (keep_first seen l).
Proof.
  induction l as [|a l IH]; intros seen; simpl.
  - constructor.
  - destruct (has a seen); [apply IH|].
    constructor; [|apply IH].
    rewrite keep_first_In. simpl. tauto.
Qed.

Lemma keep_first_app l1 : forall seen l2,
  keep_first seen (l1 ++ l2) = keep_first seen l1 ++ keep_first (l1 ++ seen) l2.
Proof.
  induction l1 as [|a l1 IH]; intros seen l2; simpl; [reflexivity|].
  destruct (has a seen) eqn:E.
  - rewrite IH. f_equal. apply keep_first_ext. intros y.
    apply has_In in E. rewrite !in_app_iff. simpl. rewrite in_app_iff.
    split; [tauto|]. intros [-> | H]; tauto.
  - simpl. rewrite IH. do 2 f_equal. apply keep_first_ext.
    intros y. rewrite !in_app_iff. simpl. rewrite in_app_iff. tauto.
Qed.

(** A list without duplicates, none of them seen before, is kept whole. *)
Lemma keep_first_fresh l : forall seen,
  NoDup l -> (forall x, In x l -> ~ In x seen) -> keep_first seen l = l.
Proof.
  induction l as [|a l IH]; intros seen Hnd Hfresh; simpl; [reflexivity|].
  inversion Hnd as [|? ? Hna Hnd']; subst.
  assert (E : has a seen = false) by (apply has_not_In, Hfresh; now left).
  rewrite E. f_equal. apply IH; [assumption|].
  intros x Hx [-> | Hs]; [contradiction|].
  apply (Hfresh x); [now right | assumption].
Qed.

(** Values all seen before are all dropped. *)
Lemma keep_first_seen l : forall seen,
  (forall x, In x l -> In x seen) -> keep_first seen l = [].
Proof.
  induction l as [|a l IH]; intros seen Hall; simpl; [reflexivity|].
  assert (E : has a seen = true) by (apply has_In, Hall; now left).
  rewrite E. apply IH. intros x Hx. apply Hall. now right.
Qed.

(** Seeing [x] beforehand is the same as deleting [x] afterwards. *)
Lemma keep_first_seen_cons l : forall seen x,
  keep_first (x :: seen) l = filter (fun y => negb (eqb y x)) (keep_first seen l).
Proof.
  induction l as [|a l IH]; intros seen x; simpl; [reflexivity|].
  rewrite (eqb_sym a x).
  destruct (eqb x a) eqn:Exa; simpl.
  - apply eqb_eq in Exa. subst a.
    destruct (has x seen) eqn:E.
    + apply IH.
    + simpl. rewrite eqb_refl. simpl.
      rewrite <- IH. apply keep_first_ext. intros y. simpl. tauto.
  - destruct (has a seen) eqn:E.
    + apply IH.
    + simpl. rewrite (eqb_sym a x), Exa. simpl. f_equal.
      rewrite <- IH. apply keep_first_ext. intros y. simpl. tauto.
Qed.

(** The head is kept and its later copies are dropped: first occurrence
    wins. *)
Lemma dedup_cons x l :
  dedup (x :: l) = x :: filter (fun y => negb (eqb y x)) (dedup l).
Proof.
  unfold dedup. simpl. f_equal. apply keep_first_seen_cons.
Qed.

Lemma dedup_In l x : In x (dedup l) <-> In x l.
Proof. unfold dedup. rewrite keep_first_In. simpl. tauto. Qed.

Lemma dedup_NoDup l : NoDup (dedup l).
Proof. apply keep_first_NoDup. Qed.

Lemma dedup_fixed l : NoDup l -> dedup l = l.
Proof. intros H. apply keep_first_fresh; [assumption | intros x _ []]. Qed.

(** [new Set] inserts in order and skips what it already holds: the
    specification's deduplication. *)
Lemma fold_Set_keep_first l : forall set,
  fold_left (fun set x => if has x set then set else set ++ [x]) l set
  = set ++ keep_first set l.
Proof.
  induction l as [|a l IH]; intros set; simpl.
  - now rewrite app_nil_r.
  - destruct (has a set) eqn:E.
    + apply IH.
    + rewrite IH, <- app_assoc. simpl. do 2 f_equal.
      apply keep_first_ext. intros y. rewrite in_app_iff. simpl. tauto.
Qed.

Lemma Array_from_Set_dedup l : Array_from_Set l = dedup l.
Proof. unfold Array_from_Set. now rewrite fold_Set_keep_first. Qed.

Lemma dedup_app l1 l2 : dedup (l1 ++ l2) = dedup l1 ++ keep_first l1 l2.
Proof.
  unfold dedup. rewrite keep_first_app. now rewrite app_nil_r.
Qed.

Lemma dedup_absorb l d :
  (forall x, In x d -> In x l) -> dedup (dedup l ++ d) = dedup l.
Proof.
  intros Hsub. rewrite dedup_app.
  rewrite (dedup_fixed (dedup_NoDup l)).
  rewrite keep_first_seen; [apply app_nil_r|].
  intros x Hx. apply dedup_In. now apply Hsub.
Qed.

End Dedup.

(** ** The merge of [updateFrontMatter] *)

Lemma strings_of_map (l : list jsstring) : strings_of (map JStr l) = Some l.
Proof.
  induction l as [|s l IH]; simpl; [reflexivity|]. now rewrite IH.
Qed.

Lemma strings_of_app (a b : list JsValue) :
  strings_of (a ++ b) =
  match strings_of a, strings_of b with
  | Some x, Some y => Some (x ++ y)
  | _, _ => None
  end.
Proof.
  induction a as [|v a IH]; simpl.
  - now destruct (strings_of b).
  - destruct v; try reflexivity.
    rewrite IH. destruct (strings_of a), (strings_of b); reflexivity.
Qed.

Lemma find_member_single (k : jsstring) (v : JsValue) :
  find_member k [(k, v)] = Some v.
Proof. simpl. now rewrite eqb_refl. Qed.

(** What lines 135-144 make of a cached [aliases] value. *)
Lemma existingAliases_cache_with (v : JsValue) :
  existingAliases (cache_with v) =
  if truthy v then
    match v with
    | JArr l => l
    | JStr s => [JStr s]
    | _ => []
    end
  else [].
Proof.
  unfold existingAliases, cache_with.
  destruct v; try (rewrite find_member_single); reflexivity.
Qed.

Lemma existingAliases_sequence (E : list jsstring) :
  existingAliases (cache_with (JArr (map JStr E))) = map JStr E.
Proof. now rewrite existingAliases_cache_with. Qed.

Lemma merge_strings (fm : JsValue) (D : list jsstring) :
  merge fm D =
  match strings_of (existingAliases (cache_with fm)) with
  | Some E => Normal (dedup (E ++ D))
  | None => Unmodelled
  end.
Proof.
  unfold merge, combinedAliases. cbn [spread].
  rewrite strings_of_app, strings_of_map.
  destruct (strings_of _); [|reflexivity].
  now rewrite Array_from_Set_dedup.
Qed.

Lemma merge_sequence (E D : list jsstring) :
  merge (JArr (map JStr E)) D = Normal (dedup (E ++ D)).
Proof.
  now rewrite merge_strings, existingAliases_sequence, strings_of_map.
Qed.

(** [updateFrontMatter] hands the merge to the host, once. *)
Lemma updateFrontMatter_merge (w : World) (file : TFile) (fm : JsValue) (D : list jsstring) :
  getFileCache w file = cache_with fm ->
  updateFrontMatter w file (JArr (map JStr D)) =
  match merge fm D with
  | Normal R => ([ProcessFrontMatter file R], Normal tt)
  | Throw e => ([], Throw e)
  | Unmodelled => ([], Unmodelled)
  end.
Proof.
  intros Hc. unfold updateFrontMatter, merge. rewrite Hc.
  destruct (combinedAliases _ _); reflexivity.
Qed.

(** C3, as stated, fails: a document whose [aliases] is the empty string
    holds one existing alias by the specification's normalization, and the
    merge does not return it. *)
Lemma merge_loses_empty_string_alias :
  normalize (Single []) = [[]]
  /\ merge (fm_value (Single [])) [js "a"] = Normal [js "a"]
  /\ ~ (forall x, In x [js "a"] <-> In x (normalize (Single [])) \/ In x [js "a"]).
Proof.
  split; [reflexivity|]. split; [reflexivity|].
  intros H. destruct (H []) as [_ Hin].
  destruct (Hin (or_introl (or_introl eq_refl))) as [Ha | []].
  vm_compute in Ha. discriminate Ha.
Qed.

(** What lines 132-144 read from the cache is the specification's
    normalization, for every collection but the empty single string. *)
Lemma existingAliases_normalize (x : Existing) :
  x <> Single [] ->
  existingAliases (cache_with (fm_value x)) = map JStr (normalize x).
Proof.
  intros Hx. rewrite existingAliases_cache_with.
  destruct x as [|s|l]; simpl.
  - reflexivity.
  - destruct s as [|c s]; [congruence | reflexivity].
  - reflexivity.
Qed.

Lemma merge_normalize (x : Existing) (D : list jsstring) :
  x <> Single [] ->
  merge (fm_value x) D = Normal (dedup (normalize x ++ D)).
Proof.
  intros Hx.
  now rewrite merge_strings, (existingAliases_normalize Hx), strings_of_map.
Qed.

(** C3, amended. For every existing alias collection other than the empty
    single string (absent, a single string, or a sequence), [E] being its
    normalization, and every discovered sequence [D], the merge is a
    duplicate-free sequence whose members are exactly those of [E] and of
    [D]; it is [E ++ D] with every value kept at its first occurrence only,
    compared by exact equality of the code units (nothing is trimmed or
    case-folded); the members of [E] come first, in their order ([E] itself
    when it has no duplicate), followed by the values only [D] brings; and
    [updateFrontMatter] writes exactly this.  The empty single string is
    falsy and counts as absent. *)
Theorem merge_is_ordered_union (x : Existing) (D : list jsstring) :
  x <> Single [] ->
  (exists R,
     merge (fm_value x) D = Normal R
     /\ (forall y, In y R <-> In y (normalize x) \/ In y D)
     /\ NoDup R
     /\ R = dedup (normalize x ++ D)
     /\ (exists added,
           R = dedup (normalize x) ++ added
           /\ (forall y, In y added <-> In y D /\ ~ In y (normalize x))
           /\ (NoDup (normalize x) -> R = normalize x ++ added))
     /\ (forall (w : World) (file : TFile),
           getFileCache w file = cache_with (fm_value x) ->
           updateFrontMatter w file (JArr (map JStr D))
           = ([ProcessFrontMatter file R], Normal tt)))
  /\ merge (fm_value (Single [])) D = merge (fm_value Absent) D.
Proof.
  intros Hx. split; [|reflexivity].
  exists (dedup (normalize x ++ D)).
  split; [now apply merge_normalize|].
  split; [intros y; rewrite dedup_In, in_app_iff; tauto|].
  split; [apply dedup_NoDup|].
  split; [reflexivity|].
  split.
  - exists (keep_first (normalize x) D). split; [apply dedup_app|]. split.
    + intros y. apply keep_first_In.
    + intros Hnd. rewrite dedup_app. now rewrite (dedup_fixed Hnd).
  - intros w file Hc.
    rewrite (@updateFrontMatter_merge w file (fm_value x) D Hc).
    now rewrite (merge_normalize D Hx).
Qed.

Lemma merge_is_ordered_union_witness :
  merge (fm_value (Single (js "Лесок"))) [js "Лесной"; js "Лесок"; js "лесок"]
  = Normal [js "Лесок"; js "Лесной"; js "лесок"].
Proof.
  destruct (@merge_is_ordered_union (Single (js "Лесок"))
              [js "Лесной"; js "Лесок"; js "лесок"]) as [(R & Hmerge & _ & _ & HR & _) _].
  - intros H. vm_compute in H. discriminate H.
  - rewrite Hmerge, HR. vm_compute. reflexivity.
Defined.

(** C5. Merging the same discovered aliases into the result of a merge
    changes nothing: [merge(merge(E, D), D) = merge(E, D)], whatever the
    cache held for [E]. *)
Theorem merge_idempotent (fm : JsValue) (D R : list jsstring) :
  merge fm D = Normal R ->
  merge (fm_value (Sequence R)) D = Normal R.
Proof.
  rewrite merge_strings. simpl fm_value. rewrite merge_sequence.
  destruct (strings_of _) as [E|]; [|discriminate].
  intros H. injection H as <-. f_equal.
  apply dedup_absorb. intros x Hx. apply in_app_iff. now right.
Qed.

Lemma merge_idempotent_witness :
  merge (JStr (js "Лесок")) [js "Лесной"; js "лесок"] = Normal [js "Лесок"; js "Лесной"; js "лесок"]
  /\ merge (fm_value (Sequence [js "Лесок"; js "Лесной"; js "лесок"])) [js "Лесной"; js "лесок"]
     = Normal [js "Лесок"; js "Лесной"; js "лесок"].
Proof.
  split; [reflexivity|].
  apply (@merge_idempotent (JStr (js "Лесок"))). reflexivity.
Defined.

Lemma merge_nothing (x : Existing) :
  x <> Single [] -> merge (fm_value x) [] = Normal (dedup (normalize x)).
Proof.
  intros Hx. rewrite merge_strings, existingAliases_cache_with.
  destruct x as [|s|l]; simpl.
  - reflexivity.
  - destruct s as [|c s]; [congruence|]. reflexivity.
  - now rewrite strings_of_map, app_nil_r.
Qed.

(** C9, as stated, fails: an existing sequence that holds a value twice is
    not returned unchanged when nothing is discovered. *)
Lemma merge_nothing_drops_duplicates :
  normalize (Sequence [js "a"; js "a"]) = [js "a"; js "a"]
  /\ merge (fm_value (Sequence [js "a"; js "a"])) [] = Normal [js "a"]
  /\ merge (fm_value (Sequence [js "a"; js "a"])) []
     <> Normal (normalize (Sequence [js "a"; js "a"])).
Proof.
  split; [reflexivity|]. split; [reflexivity|].
  intros H. vm_compute in H. discriminate H.
Qed.

(** C9, amended. For every existing alias collection other than the empty
    single string, merging with no discovered alias gives its
    normalization (absent: the empty sequence; a single string: a
    one-element sequence; a sequence: itself) with every value kept at its
    first occurrence only; so the normalization itself, element for element
    and in the same order, when it holds no value twice.  The empty single
    string counts as absent. *)
Theorem merge_nothing_discovered (x : Existing) :
  x <> Single [] ->
  merge (fm_value x) [] = Normal (dedup (normalize x))
  /\ (NoDup (normalize x) -> merge (fm_value x) [] = Normal (normalize x))
  /\ merge (fm_value (Single [])) [] = Normal [].
Proof.
  intros Hx. split; [now apply merge_nothing|]. split.
  - intros Hnd. rewrite (merge_nothing Hx). now rewrite (dedup_fixed Hnd).
  - reflexivity.
Qed.

Lemma merge_nothing_discovered_witness :
  merge (fm_value (Sequence [js "Лесок"; js "лесок"])) []
  = Normal (dedup (normalize (Sequence [js "Лесок"; js "лесок"])))
  /\ (NoDup (normalize (Sequence [js "Лесок"; js "лесок"])) ->
      merge (fm_value (Sequence [js "Лесок"; js "лесок"])) []
      = Normal (normalize (Sequence [js "Лесок"; js "лесок"])))
  /\ merge (fm_value (Single [])) [] = Normal [].
Proof.
  apply (@merge_nothing_discovered (Sequence [js "Лесок"; js "лесок"])).
  discriminate.
Defined.

(** C10. When the cached [aliases] value is neither an array nor a string,
    or is falsy (absent, [null], the empty string, ...), [updateFrontMatter]
    takes the existing aliases to be none: the array it writes holds the
    discovered aliases only (each once, in order), the former value being
    replaced.  What is written is an array also when the cached value was a
    single string [s]: the array that starts with [s]. *)
Theorem unexpected_aliases_are_overwritten
  (w : World) (file : TFile) (fm : JsValue) (D : list jsstring) :
  getFileCache w file = cache_with fm ->
  (isArray fm = false /\ is_string fm = false) \/ truthy fm = false ->
  existingAliases (getFileCache w file) = []
  /\ updateFrontMatter w file (JArr (map JStr D))
     = ([ProcessFrontMatter file (dedup D)], Normal tt)
  /\ (forall x, In x (dedup D) <-> In x D)
  /\ (forall (w' : World) (c : code_unit) (s : jsstring),
        getFileCache w' file = cache_with (JStr (c :: s)) ->
        updateFrontMatter w' file (JArr (map JStr D))
        = ([ProcessFrontMatter file
              ((c :: s) :: filter (fun y => negb (eqb y (c :: s))) (dedup D))],
           Normal tt)).
Proof.
  intros Hc Hfm.
  assert (He : existingAliases (cache_with fm) = []).
  { rewrite existingAliases_cache_with.
    destruct Hfm as [[Ha Hs] | Hf].
    - destruct fm; try discriminate; now destruct (truthy _).
    - now rewrite Hf. }
  split; [now rewrite Hc|].
  split.
  - rewrite (@updateFrontMatter_merge w file fm D Hc).
    now rewrite merge_strings, He.
  - split; [intros x; apply dedup_In|].
    intros w' c s Hc'.
    rewrite (@updateFrontMatter_merge w' file (JStr (c :: s)) D Hc').
    rewrite merge_strings, existingAliases_cache_with. simpl.
    now rewrite dedup_cons.
Qed.

Lemma unexpected_aliases_are_overwritten_witness :
  updateFrontMatter Examples.world_numeric_aliases Examples.note
    (JArr (map JStr [js "Лесной"; js "Лесной"]))
  = ([ProcessFrontMatter Examples.note [js "Лесной"]], Normal tt).
Proof.
  destruct (@unexpected_aliases_are_overwritten
              Examples.world_numeric_aliases Examples.note (JNum 2024 0)
              [js "Лесной"; js "Лесной"] eq_refl
              (or_introl (conj eq_refl eq_refl))) as (_ & Hwritten & _).
  exact Hwritten.
Defined.

(** ** The completion call *)

(** Unfolds the monad of a computation whose branches are known. *)
Ltac run_monad :=
  unfold bind, ret, emit, lift, of_sum, try_catch, do_fetch; cbn [fst snd app].

Lemma get_modelled (v : JsValue) (key : jsstring) :
  get v key = Throw TypeError \/ exists x, get v key = Normal x.
Proof.
  destruct v; simpl; try (now left); try (right; eexists; reflexivity).
  - destruct (eqb key (js "length")); [right; eexists; reflexivity|].
    destruct (array_index key) as [i|]; [|right; eexists; reflexivity].
    destruct (nth_error s i); right; eexists; reflexivity.
  - destruct (eqb key (js "length")); [right; eexists; reflexivity|].
    destruct (array_index key) as [i|]; [|right; eexists; reflexivity].
    destruct (nth_error elements i); right; eexists; reflexivity.
  - destruct (find_member key members); right; eexists; reflexivity.
Qed.

(** Reading the reply either gives a string or throws a [TypeError]. *)
Lemma message_content_modelled (data : JsValue) :
  message_content data = Throw TypeError
  \/ exists content, message_content data = Normal content.
Proof.
  unfold message_content.
  destruct (get_modelled data (js "choices")) as [-> | (choices & ->)]; [now left|].
  destruct (get_modelled choices (js "0")) as [-> | (choice & ->)]; [now left|].
  destruct (get_modelled choice (js "message")) as [-> | (message & ->)]; [now left|].
  destruct (get_modelled message (js "content")) as [-> | (content & ->)]; [now left|].
  destruct content; simpl; try (now left). right. eexists. reflexivity.
Qed.

Section GetAliases.

Variables (w : World) (title content : jsstring).

Let req := alias_request (openaiApiKey (settings w)) title content.

(** The request does not reach the endpoint. *)
Lemma getAliases_offline :
  fetch w req = None ->
  getAliases w title content
  = ([Fetch req; ConsoleError log_request_error (LogError FetchFailed);
      Notice msg_connection], Normal (JArr [])).
Proof.
  intros Hf. unfold getAliases. fold req. run_monad. now rewrite Hf.
Qed.

(** A success response whose message content is the string [reply]. *)
Lemma getAliases_success (response : Response) (data : JsValue) (reply : jsstring) :
  fetch w req = Some response -> ok response = true ->
  json response = inr data -> message_content data = Normal reply ->
  getAliases w title content = ([Fetch req], Normal (parse_reply reply)).
Proof.
  intros Hf Hok Hj Hm. unfold getAliases. fold req. run_monad.
  rewrite Hf. cbn. rewrite Hok. cbn. rewrite Hj. cbn. now rewrite Hm.
Qed.

(** A success response that is not JSON, or whose body does not hold the
    message content: the exception reaches the handler of the outer
    [try]. *)
Lemma getAliases_malformed (response : Response) (e : Exn) :
  fetch w req = Some response -> ok response = true ->
  (json response = inl e
   \/ exists data, json response = inr data /\ message_content data = Throw e) ->
  getAliases w title content
  = ([Fetch req; ConsoleError log_request_error (LogError e);
      Notice msg_connection], Normal (JArr [])).
Proof.
  intros Hf Hok Hbody. unfold getAliases. fold req. run_monad.
  rewrite Hf. cbn. rewrite Hok. cbn.
  destruct Hbody as [Hj | (data & Hj & Hm)]; rewrite Hj; cbn; [reflexivity|].
  now rewrite Hm.
Qed.

(** Whatever the endpoint does, [getAliases] does not touch the document. *)
Lemma getAliases_no_write :
  forallb (fun ev => negb (is_write ev)) (trace (getAliases w title content)) = true.
Proof.
  unfold getAliases. fold req. run_monad.
  destruct (fetch w req) as [[o j]|]; cbn; [|reflexivity].
  destruct o; cbn.
  - destruct j as [e|data]; cbn; [reflexivity|].
    destruct (message_content data); reflexivity.
  - destruct j as [e|errorData]; cbn; [reflexivity|].
    destruct (error_message errorData) as [message| |]; cbn; try reflexivity.
    destruct (ToString message); reflexivity.
Qed.

End GetAliases.

Section GetDeclensions.

Variables (w : World) (title : jsstring).

Let req := Part000.declension_request (openaiApiKey (settings w)) title.

Lemma getDeclensions_offline :
  fetch w req = None ->
  Part000.getDeclensions w title
  = ([Fetch req; ConsoleError log_request_error (LogError FetchFailed)],
     Normal (JArr [])).
Proof.
  intros Hf. unfold Part000.getDeclensions. fold req. run_monad. now rewrite Hf.
Qed.

Lemma getDeclensions_success (response : Response) (data : JsValue) (reply : jsstring) :
  fetch w req = Some response -> ok response = true ->
  json response = inr data -> message_content data = Normal reply ->
  Part000.getDeclensions w title = ([Fetch req], Normal (parse_reply reply)).
Proof.
  intros Hf Hok Hj Hm. unfold Part000.getDeclensions. fold req. run_monad.
  rewrite Hf. cbn. rewrite Hj. cbn. rewrite Hok. cbn. now rewrite Hm.
Qed.

Lemma getDeclensions_no_write :
  forallb (fun ev => negb (is_write ev)) (trace (Part000.getDeclensions w title)) = true.
Proof.
  unfold Part000.getDeclensions. fold req. run_monad.
  destruct (fetch w req) as [[o j]|]; cbn; [|reflexivity].
  destruct j as [e|data]; cbn; [reflexivity|].
  destruct o; cbn; [|reflexivity].
  destruct (message_content data); reflexivity.
Qed.

End GetDeclensions.

(** ** The guard of [addAliases] *)

Lemma get_length_array (l : list JsValue) :
  get (JArr l) (js "length") = Normal (JNum (Z.of_nat (List.length l)) 0).
Proof. unfold get. now rewrite eqb_refl. Qed.

Lemma has_aliases_array (l : list JsValue) :
  has_aliases (JArr l) = Normal (match l with [] => false | _ :: _ => true end).
Proof.
  unfold has_aliases. cbn [truthy]. rewrite get_length_array.
  unfold gt_zero, rounds_to_zero. destruct l as [|v l]; reflexivity.
Qed.

Lemma no_write_snoc (t : list Event) (message : jsstring) :
  forallb (fun ev => negb (is_write ev)) t = true ->
  existsb is_write (t ++ [Notice message]) = false.
Proof.
  intros H. rewrite existsb_app. cbn. rewrite orb_false_r.
  induction t as [|ev t IH]; [reflexivity|].
  cbn in H |- *. apply andb_true_iff in H as [Hev Ht].
  rewrite (IH Ht). now destruct (is_write ev).
Qed.

(** ** The orchestrator *)

(** C7. With no active file, or with an empty API key, [addAliases] (in
    both revisions) shows one notice and ends: no request is sent and the
    front matter is not written. *)
Theorem preconditions_abort_first (w : World) :
  getActiveFile w = None \/ openaiApiKey (settings w) = [] ->
  exists message,
    (message = msg_no_file \/ message = msg_no_key)
    /\ addAliases w = ([Notice message], Normal tt)
    /\ Part000.addAliases w = ([Notice message], Normal tt)
    /\ existsb is_fetch (trace (addAliases w)) = false
    /\ existsb is_write (trace (addAliases w)) = false
    /\ existsb is_fetch (trace (Part000.addAliases w)) = false
    /\ existsb is_write (trace (Part000.addAliases w)) = false.
Proof.
  intros Hpre. unfold addAliases, Part000.addAliases.
  destruct (getActiveFile w) as [activeFile|].
  - destruct Hpre as [Hfile | Hkey]; [discriminate|].
    rewrite Hkey. exists msg_no_key.
    split; [now right|]. repeat split.
  - exists msg_no_file.
    split; [now left|]. repeat split.
Qed.

Lemma preconditions_abort_first_witness :
  exists message,
    (message = msg_no_file \/ message = msg_no_key)
    /\ addAliases Examples.world_no_key = ([Notice message], Normal tt)
    /\ Part000.addAliases Examples.world_no_key = ([Notice message], Normal tt)
    /\ existsb is_fetch (trace (addAliases Examples.world_no_key)) = false
    /\ existsb is_write (trace (addAliases Examples.world_no_key)) = false
    /\ existsb is_fetch (trace (Part000.addAliases Examples.world_no_key)) = false
    /\ existsb is_write (trace (Part000.addAliases Examples.world_no_key)) = false.
Proof.
  apply (@preconditions_abort_first Examples.world_no_key).
  right. reflexivity.
Defined.

(** C2, as stated, fails: an empty reply parses to the one-element sequence
    holding the empty string, which is not filtered out; the front matter is
    written and the success notice shown, in both revisions. *)
Lemma empty_reply_is_written :
  parse_reply [] = JArr [JStr []]
  /\ addAliases Examples.world_empty_reply
     = ([Fetch (alias_request (js "sk-test") (js "Лес") (js "Лес - это экосистема."));
         ProcessFrontMatter Examples.note [[]];
         Notice msg_updated], Normal tt)
  /\ Part000.addAliases Examples.world_empty_reply
     = ([Fetch (Part000.declension_request (js "sk-test") (js "Лес"));
         ProcessFrontMatter Examples.note [[]];
         Notice msg_updated], Normal tt).
Proof.
  split; [reflexivity|]. split; vm_compute; reflexivity.
Qed.

(** What [addAliases] does once the completion step has returned an empty
    array. *)
Lemma addAliases_nothing_returned (w : World) (activeFile : TFile) (t : list Event) :
  getActiveFile w = Some activeFile ->
  openaiApiKey (settings w) <> [] ->
  getAliases w (basename activeFile) (body_excerpt w activeFile) = (t, Normal (JArr [])) ->
  addAliases w = (t ++ [Notice msg_no_aliases], Normal tt)
  /\ existsb is_write (trace (addAliases w)) = false.
Proof.
  intros Hfile Hkey Hget.
  assert (Hrun : addAliases w = (t ++ [Notice msg_no_aliases], Normal tt)).
  { unfold addAliases. rewrite Hfile.
    destruct (openaiApiKey (settings w)) as [|c key] eqn:Ek; [congruence|].
    fold (body_excerpt w activeFile). cbv zeta. rewrite Hget.
    run_monad. rewrite (has_aliases_array []). reflexivity. }
  split; [assumption|]. rewrite Hrun. apply no_write_snoc.
  pose proof (getAliases_no_write w (basename activeFile) (body_excerpt w activeFile)) as Hnw.
  now rewrite Hget in Hnw.
Qed.

Lemma addAliases_nothing_declined (w : World) (activeFile : TFile) (t : list Event) :
  getActiveFile w = Some activeFile ->
  openaiApiKey (settings w) <> [] ->
  Part000.getDeclensions w (basename activeFile) = (t, Normal (JArr [])) ->
  Part000.addAliases w = (t ++ [Notice msg_no_aliases], Normal tt)
  /\ existsb is_write (trace (Part000.addAliases w)) = false.
Proof.
  intros Hfile Hkey Hget.
  assert (Hrun : Part000.addAliases w = (t ++ [Notice msg_no_aliases], Normal tt)).
  { unfold Part000.addAliases. rewrite Hfile.
    destruct (openaiApiKey (settings w)) as [|c key] eqn:Ek; [congruence|].
    cbv zeta. rewrite Hget.
    run_monad. rewrite (has_aliases_array []). reflexivity. }
  split; [assumption|]. rewrite Hrun. apply no_write_snoc.
  pose proof (getDeclensions_no_write w (basename activeFile)) as Hnw.
  now rewrite Hget in Hnw.
Qed.

(** C2, amended. When the sequence the completion step returns has no
    element (as after a rejected or failed request), [addAliases] shows the
    notice that no aliases were obtained and does not write the front
    matter; the sequence is tested as returned, unfiltered. *)
Theorem no_aliases_no_write (w : World) (activeFile : TFile) (t : list Event) :
  getActiveFile w = Some activeFile ->
  openaiApiKey (settings w) <> [] ->
  (getAliases w (basename activeFile) (body_excerpt w activeFile) = (t, Normal (JArr [])) ->
   addAliases w = (t ++ [Notice msg_no_aliases], Normal tt)
   /\ existsb is_write (trace (addAliases w)) = false)
  /\ (Part000.getDeclensions w (basename activeFile) = (t, Normal (JArr [])) ->
      Part000.addAliases w = (t ++ [Notice msg_no_aliases], Normal tt)
      /\ existsb is_write (trace (Part000.addAliases w)) = false).
Proof.
  intros Hfile Hkey. split; intros Hget.
  - now apply (@addAliases_nothing_returned w activeFile t).
  - now apply (@addAliases_nothing_declined w activeFile t).
Qed.

Lemma no_aliases_no_write_witness :
  addAliases Examples.world_offline
  = ([Fetch (alias_request (js "sk-test") (js "Лес") (js "Лес - это экосистема."));
      ConsoleError log_request_error (LogError FetchFailed);
      Notice msg_connection;
      Notice msg_no_aliases], Normal tt)
  /\ existsb is_write (trace (addAliases Examples.world_offline)) = false.
Proof.
  destruct (@no_aliases_no_write Examples.world_offline Examples.note
              [Fetch (alias_request (js "sk-test") (js "Лес") (js "Лес - это экосистема."));
               ConsoleError log_request_error (LogError FetchFailed);
               Notice msg_connection]) as [Hmain _].
  - reflexivity.
  - discriminate.
  - apply Hmain. vm_compute. reflexivity.
Defined.

(** ** A success response without the expected fields *)

(** The reply is read only from a body whose [choices[0].message.content]
    is a string. *)
Lemma message_content_spec (data : JsValue) (reply : jsstring) :
  message_content data = Normal reply <->
  exists choices choice message content,
    get data (js "choices") = Normal choices
    /\ get choices (js "0") = Normal choice
    /\ get choice (js "message") = Normal message
    /\ get message (js "content") = Normal (JStr content)
    /\ reply = trim content.
Proof.
  unfold message_content. split.
  - destruct (get data (js "choices")) as [choices| |] eqn:E1; try discriminate.
    destruct (get choices (js "0")) as [choice| |] eqn:E2; try discriminate.
    destruct (get choice (js "message")) as [message| |] eqn:E3; try discriminate.
    destruct (get message (js "content")) as [content| |] eqn:E4; try discriminate.
    destruct content; try discriminate. simpl. intros H. injection H as <-.
    exists choices, choice, message, s. repeat split; assumption.
  - intros (choices & choice & message & content & -> & -> & -> & -> & ->).
    reflexivity.
Qed.

(** C8, as stated, fails: a success response whose body has no [choices]
    is handled exactly as a request that never reached the endpoint; the
    user is told to check the internet connection, and nothing marks the
    response as malformed. *)
Lemma malformed_body_reported_as_connection_error :
  getAliases Examples.world_malformed (js "Лес") []
  = ([Fetch (alias_request (js "sk-test") (js "Лес") []);
      ConsoleError log_request_error (LogError TypeError);
      Notice msg_connection], Normal (JArr []))
  /\ notices (trace (getAliases Examples.world_malformed (js "Лес") []))
     = notices (trace (getAliases Examples.world_offline (js "Лес") []))
  /\ completion (getAliases Examples.world_malformed (js "Лес") [])
     = completion (getAliases Examples.world_offline (js "Лес") []).
Proof.
  split; [vm_compute; reflexivity|]. split; vm_compute; reflexivity.
Qed.

(** C8, amended. A success response that is not JSON, or whose body lacks
    [choices[0].message.content] as a string, ends the invocation: the
    exception is caught by the handler that also takes transport failures,
    is logged to the console, the user sees the generic notice about the
    connection, [getAliases] returns the empty sequence, and [addAliases]
    then reports that no aliases were obtained without writing. *)
Theorem malformed_success_is_caught
  (w : World) (activeFile : TFile) (response : Response) (e : Exn) :
  getActiveFile w = Some activeFile ->
  openaiApiKey (settings w) <> [] ->
  fetch w (alias_request (openaiApiKey (settings w)) (basename activeFile)
             (body_excerpt w activeFile)) = Some response ->
  ok response = true ->
  (json response = inl e
   \/ exists data, json response = inr data /\ message_content data = Throw e) ->
  getAliases w (basename activeFile) (body_excerpt w activeFile)
  = ([Fetch (alias_request (openaiApiKey (settings w)) (basename activeFile)
               (body_excerpt w activeFile));
      ConsoleError log_request_error (LogError e);
      Notice msg_connection], Normal (JArr []))
  /\ addAliases w
     = ([Fetch (alias_request (openaiApiKey (settings w)) (basename activeFile)
                  (body_excerpt w activeFile));
         ConsoleError log_request_error (LogError e);
         Notice msg_connection;
         Notice msg_no_aliases], Normal tt)
  /\ existsb is_write (trace (addAliases w)) = false.
Proof.
  intros Hfile Hkey Hf Hok Hbody.
  pose proof (@getAliases_malformed w (basename activeFile)
                (body_excerpt w activeFile) response e Hf Hok Hbody) as Hget.
  split; [exact Hget|].
  destruct (@addAliases_nothing_returned w activeFile _ Hfile Hkey Hget) as [Hrun Hnw].
  split; [exact Hrun | exact Hnw].
Qed.

Lemma malformed_success_is_caught_witness :
  addAliases Examples.world_malformed
  = ([Fetch (alias_request (js "sk-test") (js "Лес") (js "Лес - это экосистема."));
      ConsoleError log_request_error (LogError TypeError);
      Notice msg_connection;
      Notice msg_no_aliases], Normal tt).
Proof.
  destruct (@malformed_success_is_caught Examples.world_malformed Examples.note
              {| ok := true; json := inr (JObj []) |} TypeError
              eq_refl) as (_ & Hrun & _).
  - discriminate.
  - reflexivity.
  - reflexivity.
  - right. exists (JObj []). split; reflexivity.
  - exact Hrun.
Defined.

(** ** The body excerpt of the prompt *)

Lemma strip_prefix_app (p r : jsstring) : strip_prefix p (p ++ r) = Some r.
Proof.
  induction p as [|a p IH]; simpl; [reflexivity|]. now rewrite N.eqb_refl.
Qed.

Lemma strip_prefix_Some (p : jsstring) : forall s r,
  strip_prefix p s = Some r -> s = p ++ r.
Proof.
  induction p as [|a p IH]; intros s r; simpl.
  - intros H. now injection H as ->.
  - destruct s as [|b s]; [discriminate|].
    destruct (N.eqb_spec a b) as [<-|]; [|discriminate].
    intros H. now rewrite (IH _ _ H).
Qed.


Lemma after_first_here (pat s r : jsstring) :
  strip_prefix pat s = Some r -> after_first pat s = Some r.
Proof.
  intros H. destruct s; simpl; now rewrite H.
Qed.

(** ... and that occurrence is the first one. *)
Lemma after_first_app (pat : jsstring) : forall pre r,
  exists pre' r',
    after_first pat (pre ++ pat ++ r) = Some r'
    /\ pre ++ pat ++ r = pre' ++ pat ++ r'
    /\ (List.length pre' <= List.length pre)%nat.
Proof.
  induction pre as [|c pre IH]; intros r.
  - exists [], r. simpl app.
    split; [apply after_first_here, strip_prefix_app | auto].
  - simpl app. simpl after_first.
    destruct (strip_prefix pat (c :: pre ++ pat ++ r)) as [r0|] eqn:E.
    + exists [], r0. split; [reflexivity|]. split; [|simpl; lia].
      simpl. now apply strip_prefix_Some.
    + destruct (IH r) as (pre' & r' & Ha & Heq & Hlen).
      exists (c :: pre'), r'. split; [assumption|].
      split; [simpl; now rewrite Heq | simpl; lia].
Qed.










(** ** The reply parser *)

(** No segment holds the separator. *)
Lemma split_segments (sep : code_unit) (s : jsstring) :
  Forall (fun seg => ~ In sep seg) (split sep s).
Proof.
  induction s as [|c s IH]; simpl.
  - constructor; [intros [] | constructor].
  - destruct (N.eqb_spec c sep) as [->|Hne].
    + constructor; [intros [] | assumption].
    + destruct (split sep s) as [|seg segs]; [repeat constructor; intros [H|[]]; congruence|].
      inversion IH as [|? ? Hseg Hsegs]; subst.
      constructor; [|assumption]. intros [H|H]; [congruence | contradiction].
Qed.

(** One segment more than there are separators. *)
Lemma split_length (sep : code_unit) (s : jsstring) :
  List.length (split sep s) = S (List.length (filter (N.eqb sep) s)).
Proof.
  induction s as [|c s IH]; [reflexivity|]. simpl.
  rewrite (N.eqb_sym sep c).
  destruct (N.eqb c sep); simpl; [now rewrite IH|].
  pose proof (split_not_nil sep s) as Hnn.
  destruct (split sep s) as [|seg segs]; [congruence|]. exact IH.
Qed.

Lemma trimStart_spec (s : jsstring) :
  exists ws, s = ws ++ trimStart s
             /\ Forall (fun c => is_whitespace c = true) ws
             /\ (forall c r, trimStart s = c :: r -> is_whitespace c = false).
Proof.
  induction s as [|c s (ws & Heq & Hws & Hfirst)]; simpl.
  - exists []. repeat split; [constructor | discriminate].
  - destruct (is_whitespace c) eqn:E.
    + exists (c :: ws). simpl. split; [now rewrite <- Heq|].
      split; [now constructor | assumption].
    + exists []. split; [reflexivity|]. split; [constructor|].
      intros c' r H. now injection H as <- _.
Qed.

(** [trim] cuts white space, and only white space, off both ends. *)
Lemma trim_spec (s : jsstring) :
  exists before after,
    s = before ++ trim s ++ after
    /\ Forall (fun c => is_whitespace c = true) before
    /\ Forall (fun c => is_whitespace c = true) after
    /\ (forall c r, trim s = c :: r -> is_whitespace c = false)
    /\ (forall c r, trim s = r ++ [c] -> is_whitespace c = false).
Proof.
  unfold trim, trimEnd.
  destruct (trimStart_spec s) as (before & Hs & Hbefore & Hfirst).
  destruct (trimStart_spec (rev (trimStart s))) as (after & Hr & Hafter & Hlast).
  set (core := trimStart (rev (trimStart s))) in *.
  assert (Hmid : trimStart s = rev core ++ rev after).
  { rewrite <- rev_app_distr, <- Hr. now rewrite rev_involutive. }
  exists before, (rev after). split; [now rewrite <- Hmid|].
  split; [assumption|]. split; [now apply Forall_rev|]. split.
  - intros c r Hc. destruct (rev core) as [|c0 r0] eqn:Ec; [discriminate|].
    injection Hc as -> ->. apply (Hfirst c (r ++ rev after)).
    now rewrite Hmid.
  - intros c r Hc. apply (Hlast c (rev r)).
    rewrite <- (rev_involutive core), Hc, rev_app_distr. reflexivity.
Qed.

(** When [JSON.parse] throws, the reply is split at the commas and each
    segment trimmed; the segments are kept in order, empty ones included,
    and splitting cannot fail. *)
Lemma parse_reply_fallback (content : jsstring) (e : Exn) :
  JSON_parse content = inl e ->
  parse_reply content = JArr (map JStr (comma_split content))
  /\ List.length (comma_split content)
     = S (List.length (filter (N.eqb comma) content))
  /\ join comma (split comma content) = content.
Proof.
  intros H. unfold parse_reply, comma_split. rewrite H.
  split; [now rewrite map_map|].
  split; [now rewrite length_map, split_length | apply join_split].
Qed.

(** C1, at the reply the prompt itself shows as its second format: the
    aliases, comma-separated, inside double quotes.  The text is valid JSON
    (a string, not an array), so [JSON.parse] does not throw and the reply
    is not split: [getAliases] returns a string where it declares
    [string[]], and the front matter receives its characters one by one.
    Both revisions behave so. *)
Theorem quoted_reply_is_not_split :
  JSON_parse Examples.quoted_reply = inr (JStr (js "a, b"))
  /\ comma_split Examples.quoted_reply = [dq ++ js "a"; js "b" ++ dq]
  /\ parse_reply Examples.quoted_reply = JStr (js "a, b")
  /\ parse_reply Examples.quoted_reply
     <> JArr (map JStr (comma_split Examples.quoted_reply))
  /\ completion (getAliases Examples.world_quoted_reply (js "Лес") [])
     = Normal (JStr (js "a, b"))
  /\ completion (Part000.getDeclensions Examples.world_quoted_reply (js "Лес"))
     = Normal (JStr (js "a, b"))
  /\ addAliases Examples.world_quoted_reply
     = ([Fetch (alias_request (js "sk-test") (js "Лес") (js "Лес - это экосистема."));
         ProcessFrontMatter Examples.note [js "a"; js ","; js " "; js "b"];
         Notice msg_updated], Normal tt)
  /\ Part000.addAliases Examples.world_quoted_reply
     = ([Fetch (Part000.declension_request (js "sk-test") (js "Лес"));
         ProcessFrontMatter Examples.note [js "a"; js ","; js " "; js "b"];
         Notice msg_updated], Normal tt).
Proof.
  assert (Hparse : parse_reply Examples.quoted_reply = JStr (js "a, b"))
    by (vm_compute; reflexivity).
  repeat split; try (vm_compute; reflexivity).
  rewrite Hparse. discriminate.
Qed.

(** ** [JSON.parse] on arrays of strings *)

Lemma skip_ws_app (ws s : jsstring) :
  whitespace ws -> skip_ws (ws ++ s) = skip_ws s.
Proof.
  induction 1 as [|c ws Hc _ IH]; [reflexivity|]. simpl. now rewrite Hc.
Qed.

Lemma skip_ws_whitespace (ws : jsstring) : whitespace ws -> skip_ws ws = [].
Proof.
  intros H. rewrite <- (app_nil_r ws). now rewrite skip_ws_app.
Qed.

(** The scanner of string literals accepts the grammar's literals, with
    the value the grammar gives them. *)
Lemma parse_chars_literal (src v : jsstring) :
  literal_chars src v ->
  forall rest, parse_chars (src ++ 34%N :: rest) = Some (v, rest).
Proof.
  induction 1 as [|c src v Hq Hb Hc _ IH|x u src v Hx Hu _ IH
                  |h1 h2 h3 h4 u src v Hh _ IH]; intros rest.
  - reflexivity.
  - simpl.
    destruct (N.eqb_spec c 34) as [|_]; [contradiction|].
    destruct (N.eqb_spec c 92) as [|_]; [contradiction|].
    destruct (N.ltb_spec c 32) as [|_]; [lia|].
    now rewrite IH.
  - cbn [app parse_chars]. cbn [N.eqb Pos.eqb].
    destruct (N.eqb_spec x 117) as [|_]; [contradiction|].
    now rewrite Hu, IH.
  - cbn [app parse_chars]. cbn [N.eqb Pos.eqb].
    now rewrite Hh, IH.
Qed.

(** A string literal, possibly after white space, as a value. *)
Lemma parse_value_literal (fuel : nat) (ws src v rest : jsstring) :
  (1 <= fuel)%nat -> whitespace ws -> literal_chars src v ->
  parse_value fuel (ws ++ dq ++ src ++ dq ++ rest) = POk (JStr v) rest.
Proof.
  intros Hfuel Hws Hlit. destruct fuel as [|fuel]; [lia|].
  cbn [parse_value]. rewrite skip_ws_app by assumption.
  cbn [dq app skip_ws is_json_ws N.eqb Pos.eqb orb].
  now rewrite (parse_chars_literal Hlit).
Qed.

Lemma string_elements_length (body : jsstring) (vs : list jsstring) :
  string_elements body vs -> (List.length vs <= List.length body)%nat.
Proof.
  induction 1 as [w1 src v w2 _ _ _|w1 src v w2 tail vs _ _ _ _ IH];
    repeat (rewrite ?length_app; cbn [List.length dq]); lia.
Qed.

(** The elements of an array of strings, given two units of fuel for each. *)
Lemma parse_elements_strings (body : jsstring) (vs : list jsstring) :
  string_elements body vs ->
  forall fuel rest,
    (2 * List.length vs <= fuel)%nat ->
    parse_elements fuel (body ++ rest) = POk (map JStr vs) rest.
Proof.
  induction 1 as [w1 src v w2 Hw1 Hlit Hw2|w1 src v w2 tail vs Hw1 Hlit Hw2 _ IH];
    intros fuel rest Hfuel; cbn [List.length] in Hfuel.
  - destruct fuel as [|fuel]; [lia|].
    cbn [parse_elements]. repeat rewrite <- app_assoc.
    rewrite parse_value_literal with (v := v) by (assumption || lia).
    rewrite skip_ws_app by assumption. reflexivity.
  - destruct fuel as [|fuel]; [lia|].
    cbn [parse_elements]. repeat rewrite <- app_assoc.
    rewrite parse_value_literal with (v := v) by (assumption || lia).
    rewrite skip_ws_app by assumption.
    cbn [app skip_ws is_json_ws N.eqb Pos.eqb orb].
    rewrite IH by lia. reflexivity.
Qed.

(** [JSON.parse] accepts every array of strings of the grammar and returns
    the strings it denotes. *)
Lemma JSON_parse_string_array (raw : jsstring) (l : list jsstring) :
  string_array raw l -> JSON_parse raw = inr (JArr (map JStr l)).
Proof.
  destruct 1 as [w0 w1 w2 Hw0 Hw1 Hw2|w0 body vs w2 Hw0 Hbody Hw2];
    unfold JSON_parse.
  - replace (2 * List.length (w0 ++ 91%N :: w1 ++ 93%N :: w2) + 2)%nat
      with (S (2 * List.length (w0 ++ 91%N :: w1 ++ 93%N :: w2) + 1)) by lia.
    cbn [parse_value]. rewrite skip_ws_app by assumption.
    cbn [skip_ws is_json_ws N.eqb Pos.eqb orb].
    rewrite skip_ws_app by assumption.
    cbn [skip_ws is_json_ws N.eqb Pos.eqb orb map].
    now rewrite skip_ws_whitespace.
  - replace (2 * List.length (w0 ++ 91%N :: body ++ w2) + 2)%nat
      with (S (2 * List.length (w0 ++ 91%N :: body ++ w2) + 1)) by lia.
    cbn [parse_value]. rewrite skip_ws_app by assumption.
    cbn [skip_ws is_json_ws N.eqb Pos.eqb orb].
    assert (Hskip : exists r', skip_ws (body ++ w2) = 34%N :: r').
    { destruct Hbody as [w1 src v w3 Hw1 _ _|w1 src v w3 tail vs Hw1 _ _ _];
        repeat rewrite <- app_assoc; rewrite skip_ws_app by assumption;
        cbn; eauto. }
    destruct Hskip as (r' & ->). cbn [N.eqb Pos.eqb].
    rewrite (parse_elements_strings Hbody).
    + now rewrite skip_ws_whitespace.
    + pose proof (string_elements_length Hbody).
      rewrite length_app. cbn [List.length]. rewrite length_app. lia.
Qed.

(** C6. A reply that is a well-formed JSON array of strings (white space
    allowed around the tokens, escapes allowed in the strings) is returned
    as the sequence of the strings it denotes, in their order, duplicates
    included: by [JSON.parse], hence by the parse step, hence by
    [getAliases] and [getDeclensions] for a success response carrying it. *)
Theorem string_array_reply_as_is (raw : jsstring) (l : list jsstring) :
  string_array raw l ->
  JSON_parse raw = inr (JArr (map JStr l))
  /\ parse_reply raw = JArr (map JStr l)
  /\ (forall (w : World) (title content : jsstring) (response : Response) (data : JsValue),
        fetch w (alias_request (openaiApiKey (settings w)) title content) = Some response ->
        ok response = true -> json response = inr data ->
        message_content data = Normal raw ->
        getAliases w title content
        = ([Fetch (alias_request (openaiApiKey (settings w)) title content)],
           Normal (JArr (map JStr l))))
  /\ (forall (w : World) (title : jsstring) (response : Response) (data : JsValue),
        fetch w (Part000.declension_request (openaiApiKey (settings w)) title) = Some response ->
        ok response = true -> json response = inr data ->
        message_content data = Normal raw ->
        Part000.getDeclensions w title
        = ([Fetch (Part000.declension_request (openaiApiKey (settings w)) title)],
           Normal (JArr (map JStr l)))).
Proof.
  intros Harr. pose proof (JSON_parse_string_array Harr) as Hjson.
  assert (Hreply : parse_reply raw = JArr (map JStr l))
    by (unfold parse_reply; now rewrite Hjson).
  split; [assumption|]. split; [assumption|]. split.
  - intros w title content response data Hf Hok Hj Hm.
    rewrite (@getAliases_success w title content response data raw Hf Hok Hj Hm).
    now rewrite Hreply.
  - intros w title response data Hf Hok Hj Hm.
    rewrite (@getDeclensions_success w title response data raw Hf Hok Hj Hm).
    now rewrite Hreply.
Qed.

Lemma literal_chars_plain (s : jsstring) :
  forallb plain_char s = true -> literal_chars s s.
Proof.
  induction s as [|c s IH]; simpl; [constructor|].
  unfold plain_char at 1. rewrite !andb_true_iff, !negb_true_iff.
  intros [[[Hq Hb] Hc] Hs].
  apply lit_plain; [now apply N.eqb_neq | now apply N.eqb_neq
                    | now apply N.leb_le | now apply IH].
Qed.

Lemma array_reply_in_grammar :
  string_array Examples.array_reply [js "Оке"; js "Окой"; js "Окою"].
Proof.
  change Examples.array_reply with
    ([] ++ 91%N ::
       ([] ++ dq ++ js "Оке" ++ dq ++ [] ++ 44%N ::
          (js " " ++ dq ++ js "Окой" ++ dq ++ [] ++ 44%N ::
             (js " " ++ dq ++ js "Окою" ++ dq ++ [] ++ [93%N]))) ++ []).
  apply array_elements; [constructor | | constructor].
  apply elements_more; [constructor | now apply literal_chars_plain | constructor |].
  apply elements_more;
    [repeat constructor | now apply literal_chars_plain | constructor |].
  apply elements_last;
    [repeat constructor | now apply literal_chars_plain | constructor].
Qed.

Lemma string_array_reply_as_is_witness :
  parse_reply Examples.array_reply = JArr [JStr (js "Оке"); JStr (js "Окой"); JStr (js "Окою")].
Proof.
  destruct (@string_array_reply_as_is Examples.array_reply
              [js "Оке"; js "Окой"; js "Окою"] array_reply_in_grammar)
    as (_ & Hreply & _).
  exact Hreply.
Defined.

(** ** The fuel of [JSON.parse] *)

(** [JSON_parse] never reports a syntax error for want of fuel: every
    successful step of the parser consumes input, and twice the length of
    the text (plus two) covers the deepest nesting of calls. *)

Lemma skip_ws_length (s : jsstring) : (List.length (skip_ws s) <= List.length s)%nat.
Proof.
  induction s as [|c s IH]; simpl; [lia|].
  destruct (is_json_ws c); simpl; lia.
Qed.

Lemma skip_ws_cons_length (s r : jsstring) (c : code_unit) :
  skip_ws s = c :: r -> (List.length r < List.length s)%nat.
Proof.
  intros H. pose proof (skip_ws_length s) as Hl. rewrite H in Hl. simpl in Hl. lia.
Qed.

Lemma parse_chars_length : forall (n : nat) (s str rest : jsstring),
  (List.length s <= n)%nat ->
  parse_chars s = Some (str, rest) -> (List.length rest < List.length s)%nat.
Proof.
  induction n as [|n IH]; intros s str rest Hn H.
  - destruct s; [discriminate | simpl in Hn; lia].
  - destruct s as [|c r]; [discriminate|]. simpl in Hn. cbn [parse_chars] in H.
    destruct (N.eqb c 34).
    { injection H as _ <-. simpl. lia. }
    destruct (N.eqb c 92).
    + destruct r as [|x r1]; [discriminate|]. simpl in Hn.
      destruct (N.eqb x 117).
      * destruct r1 as [|h1 [|h2 [|h3 [|h4 r2]]]]; try discriminate.
        destruct (hex4 h1 h2 h3 h4); [|discriminate].
        destruct (parse_chars r2) as [[str' rest']|] eqn:E; [|discriminate].
        injection H as _ <-. apply IH in E; simpl in *; lia.
      * destruct (unescape x); [|discriminate].
        destruct (parse_chars r1) as [[str' rest']|] eqn:E; [|discriminate].
        injection H as _ <-. apply IH in E; simpl in *; lia.
    + destruct (N.ltb c 32); [discriminate|].
      destruct (parse_chars r) as [[str' rest']|] eqn:E; [|discriminate].
      injection H as _ <-. apply IH in E; simpl in *; lia.
Qed.

Lemma take_digits_length (s : jsstring) (ds : list N) (rest : jsstring) :
  take_digits s = (ds, rest) -> (List.length rest <= List.length s)%nat.
Proof.
  revert ds rest. induction s as [|c s IH]; intros ds rest H; simpl in H.
  - injection H as _ <-. lia.
  - destruct (is_digit c).
    + destruct (take_digits s) as [ds' rest'] eqn:E. injection H as _ <-.
      specialize (IH _ _ eq_refl). simpl. lia.
    + injection H as _ <-. lia.
Qed.

Lemma parse_number_length (s : jsstring) (v : JsValue) (rest : jsstring) :
  parse_number s = Some (v, rest) -> (List.length rest < List.length s)%nat.
Proof.
  unfold parse_number. intros H.
  set (signed := match s with
                 | c :: r => if N.eqb c 45 then (true, r) else (false, s)
                 | [] => (false, s)
                 end) in H.
  assert (Hs1 : (List.length (snd signed) <= List.length s)%nat).
  { subst signed. destruct s as [|c r]; [simpl; lia|].
    destruct (N.eqb c 45); simpl; lia. }
  destruct signed as [neg s1]. simpl in Hs1.
  destruct (parse_int s1) as [[ip s2]|] eqn:Ei; [|discriminate].
  assert (Hs2 : (List.length s2 < List.length s1)%nat).
  { unfold parse_int in Ei. destruct s1 as [|c r]; [discriminate|].
    destruct (N.eqb c 48); [injection Ei as _ <-; simpl; lia|].
    destruct (is_digit c) eqn:Ed; [|discriminate].
    injection Ei as Etd. simpl in Etd. rewrite Ed in Etd.
    destruct (take_digits r) as [ds rest'] eqn:E. injection Etd as _ <-.
    apply take_digits_length in E. simpl. lia. }
  destruct (parse_frac s2) as [[fp s3]|] eqn:Ef; [|discriminate].
  assert (Hs3 : (List.length s3 <= List.length s2)%nat).
  { unfold parse_frac in Ef. destruct s2 as [|c r]; [injection Ef as _ <-; lia|].
    destruct (N.eqb c 46); [|injection Ef as _ <-; lia].
    destruct (take_digits r) as [ds rest'] eqn:E.
    apply take_digits_length in E.
    destruct ds; [discriminate|]. injection Ef as _ <-. simpl. lia. }
  destruct (parse_exp s3) as [[ex s4]|] eqn:Ee; [|discriminate].
  assert (Hs4 : (List.length s4 <= List.length s3)%nat).
  { unfold parse_exp in Ee. destruct s3 as [|c r]; [injection Ee as _ <-; lia|].
    destruct ((N.eqb c 101) || (N.eqb c 69)); [|injection Ee as _ <-; lia].
    set (sg := match r with
               | sg :: r' => if N.eqb sg 45 then (true, r')
                             else if N.eqb sg 43 then (false, r') else (false, r)
               | [] => (false, r)
               end) in Ee.
    assert (Hsg : (List.length (snd sg) <= List.length r)%nat).
    { subst sg. destruct r as [|x r']; [simpl; lia|].
      destruct (N.eqb x 45); [simpl; lia|]. destruct (N.eqb x 43); simpl; lia. }
    destruct sg as [neg' r1]. simpl in Hsg.
    destruct (take_digits r1) as [ds rest'] eqn:E.
    apply take_digits_length in E.
    destruct ds; [discriminate|]. injection Ee as _ <-. simpl. lia. }
  injection H as _ <-. lia.
Qed.

Lemma strip_prefix_length (p s r : jsstring) :
  strip_prefix p s = Some r -> List.length s = (List.length p + List.length r)%nat.
Proof.
  intros H. apply strip_prefix_Some in H. subst. apply length_app.
Qed.

Lemma parse_literal_length (s : jsstring) (v : JsValue) (rest : jsstring) :
  parse_literal s = Some (v, rest) -> (List.length rest < List.length s)%nat.
Proof.
  unfold parse_literal. intros H.
  destruct (strip_prefix (js "true") s) eqn:Et.
  { injection H as _ <-. apply strip_prefix_length in Et.
    change (List.length (js "true")) with 4%nat in Et. lia. }
  destruct (strip_prefix (js "false") s) eqn:Ef.
  { injection H as _ <-. apply strip_prefix_length in Ef.
    change (List.length (js "false")) with 5%nat in Ef. lia. }
  destruct (strip_prefix (js "null") s) eqn:En.
  { injection H as _ <-. apply strip_prefix_length in En.
    change (List.length (js "null")) with 4%nat in En. lia. }
  eapply parse_number_length; eassumption.
Qed.

Lemma of_option_POk {A : Type} (o : option (A * jsstring)) (a : A) (r : jsstring) :
  of_option o = POk a r -> o = Some (a, r).
Proof.
  destruct o as [[a' r']|]; simpl; [|discriminate].
  intros H. now injection H as -> ->.
Qed.

(** Every successful parse consumes input. *)
Lemma parse_consumes (fuel : nat) :
  (forall s v r, parse_value fuel s = POk v r ->
                 (List.length r < List.length s)%nat)
  /\ (forall s vs r, parse_elements fuel s = POk vs r ->
                     (List.length r < List.length s)%nat)
  /\ (forall s ms r, parse_members fuel s = POk ms r ->
                     (List.length r < List.length s)%nat).
Proof.
  induction fuel as [|f (IHv & IHe & IHm)];
    [repeat split; intros; discriminate|].
  split; [|split].
  - intros s v r H. cbn [parse_value] in H.
    destruct (skip_ws s) as [|c r0] eqn:Es; [discriminate|].
    pose proof (skip_ws_cons_length _ Es) as Hr0.
    destruct (N.eqb c 34).
    { destruct (parse_chars r0) as [[str rest]|] eqn:Ec; [|discriminate].
      injection H as _ <-. apply (parse_chars_length (n := List.length r0)) in Ec; lia. }
    destruct (N.eqb c 91).
    { destruct (skip_ws r0) as [|c' r'] eqn:Es2; [discriminate|].
      pose proof (skip_ws_cons_length _ Es2).
      destruct (N.eqb c' 93); [injection H as _ <-; lia|].
      destruct (parse_elements f r0) as [vs rest| |] eqn:Ee; try discriminate.
      injection H as _ <-. apply IHe in Ee. lia. }
    destruct (N.eqb c 123).
    { destruct (skip_ws r0) as [|c' r'] eqn:Es2; [discriminate|].
      pose proof (skip_ws_cons_length _ Es2).
      destruct (N.eqb c' 125); [injection H as _ <-; lia|].
      destruct (parse_members f r0) as [ms rest| |] eqn:Em; try discriminate.
      injection H as _ <-. apply IHm in Em. lia. }
    apply of_option_POk, parse_literal_length in H. simpl in H. lia.
  - intros s vs r H. cbn [parse_elements] in H.
    destruct (parse_value f s) as [v r1| |] eqn:Ev; try discriminate.
    apply IHv in Ev.
    destruct (skip_ws r1) as [|c r'] eqn:Es; [discriminate|].
    pose proof (skip_ws_cons_length _ Es).
    destruct (N.eqb c 44).
    { destruct (parse_elements f r') as [vs' rest| |] eqn:Ee; try discriminate.
      injection H as _ <-. apply IHe in Ee. lia. }
    destruct (N.eqb c 93); [|discriminate].
    injection H as _ <-. lia.
  - intros s ms r H. cbn [parse_members] in H.
    destruct (skip_ws s) as [|q r0] eqn:Es0; [discriminate|].
    pose proof (skip_ws_cons_length _ Es0).
    destruct (N.eqb q 34); [|discriminate].
    destruct (parse_chars r0) as [[key r1]|] eqn:Ec; [|discriminate].
    apply (parse_chars_length (n := List.length r0)) in Ec; [|lia].
    destruct (skip_ws r1) as [|colon r2] eqn:Es1; [discriminate|].
    pose proof (skip_ws_cons_length _ Es1).
    destruct (N.eqb colon 58); [|discriminate].
    destruct (parse_value f r2) as [v r3| |] eqn:Ev; try discriminate.
    apply IHv in Ev.
    destruct (skip_ws r3) as [|c r'] eqn:Es; [discriminate|].
    pose proof (skip_ws_cons_length _ Es).
    destruct (N.eqb c 44).
    { destruct (parse_members f r') as [ms' rest| |] eqn:Em; try discriminate.
      injection H as _ <-. apply IHm in Em. lia. }
    destruct (N.eqb c 125); [|discriminate].
    injection H as _ <-. lia.
Qed.

(** With fuel for twice the length of the text, no call runs out of it. *)
Lemma parse_enough_fuel (fuel : nat) :
  (forall s, (2 * List.length s + 1 <= fuel)%nat ->
             parse_value fuel s <> POutOfFuel)
  /\ (forall s, (2 * List.length s + 2 <= fuel)%nat ->
                parse_elements fuel s <> POutOfFuel)
  /\ (forall s, (2 * List.length s + 2 <= fuel)%nat ->
                parse_members fuel s <> POutOfFuel).
Proof.
  induction fuel as [|f (IHv & IHe & IHm)]; [repeat split; intros; lia|].
  destruct (parse_consumes f) as (Cv & Ce & Cm).
  split; [|split].
  - intros s Hf. cbn [parse_value].
    destruct (skip_ws s) as [|c r0] eqn:Es; [discriminate|].
    pose proof (skip_ws_cons_length _ Es) as Hr0.
    destruct (N.eqb c 34).
    { destruct (parse_chars r0) as [[str rest]|]; discriminate. }
    destruct (N.eqb c 91).
    { destruct (skip_ws r0) as [|c' r'] eqn:Es2; [discriminate|].
      destruct (N.eqb c' 93); [discriminate|].
      assert (He : parse_elements f r0 <> POutOfFuel) by (apply IHe; lia).
      destruct (parse_elements f r0); congruence. }
    destruct (N.eqb c 123).
    { destruct (skip_ws r0) as [|c' r'] eqn:Es2; [discriminate|].
      destruct (N.eqb c' 125); [discriminate|].
      assert (Hm : parse_members f r0 <> POutOfFuel) by (apply IHm; lia).
      destruct (parse_members f r0); congruence. }
    destruct (parse_literal (c :: r0)) as [[v r]|]; discriminate.
  - intros s Hf. cbn [parse_elements].
    assert (Hv : parse_value f s <> POutOfFuel) by (apply IHv; lia).
    destruct (parse_value f s) as [v r1| |] eqn:Ev; [|discriminate|congruence].
    apply Cv in Ev.
    destruct (skip_ws r1) as [|c r'] eqn:Es; [discriminate|].
    pose proof (skip_ws_cons_length _ Es).
    destruct (N.eqb c 44).
    { assert (He : parse_elements f r' <> POutOfFuel) by (apply IHe; lia).
      destruct (parse_elements f r'); congruence. }
    destruct (N.eqb c 93); discriminate.
  - intros s Hf. cbn [parse_members].
    destruct (skip_ws s) as [|q r0] eqn:Es0; [discriminate|].
    pose proof (skip_ws_cons_length _ Es0).
    destruct (N.eqb q 34); [|discriminate].
    destruct (parse_chars r0) as [[key r1]|] eqn:Ec; [|discriminate].
    apply (parse_chars_length (n := List.length r0)) in Ec; [|lia].
    destruct (skip_ws r1) as [|colon r2] eqn:Es1; [discriminate|].
    pose proof (skip_ws_cons_length _ Es1).
    destruct (N.eqb colon 58); [|discriminate].
    assert (Hv : parse_value f r2 <> POutOfFuel) by (apply IHv; lia).
    destruct (parse_value f r2) as [v r3| |] eqn:Ev; [|discriminate|congruence].
    apply Cv in Ev.
    destruct (skip_ws r3) as [|c r'] eqn:Es; [discriminate|].
    pose proof (skip_ws_cons_length _ Es).
    destruct (N.eqb c 44).
    { assert (Hm : parse_members f r' <> POutOfFuel) by (apply IHm; lia).
      destruct (parse_members f r'); congruence. }
    destruct (N.eqb c 125); discriminate.
Qed.

(** The fuel [JSON_parse] passes is enough for every text. *)
Lemma JSON_parse_fuel (text : jsstring) :
  parse_value (2 * List.length text + 2) text <> POutOfFuel.
Proof.
  apply (parse_enough_fuel (2 * List.length text + 2)). lia.
Qed.

(** ** The scenarios of the specification *)

(** For the three shapes the data model gives an alias collection, the
    merge is always defined. *)
Lemma merge_defined (x : Existing) (D : list jsstring) :
  exists R, merge (fm_value x) D = Normal R.
Proof.
  rewrite merge_strings, existingAliases_cache_with.
  destruct x as [|s|l]; simpl.
  - eauto.
  - destruct s; simpl; eauto.
  - rewrite strings_of_map. eauto.
Qed.

(** A rejected request whose body carries [error.message] as a string. *)
Lemma getAliases_rejected (w : World) (title content : jsstring)
      (response : Response) (errorData : JsValue) (text : jsstring) :
  fetch w (alias_request (openaiApiKey (settings w)) title content) = Some response ->
  ok response = false -> json response = inr errorData ->
  error_message errorData = Normal (JStr text) ->
  getAliases w title content
  = ([Fetch (alias_request (openaiApiKey (settings w)) title content);
      ConsoleError log_api_error (LogValue errorData);
      Notice (msg_api_error ++ text)], Normal (JArr [])).
Proof.
  intros Hf Hok Hj Hm. unfold getAliases. run_monad.
  rewrite Hf. cbn. rewrite Hok. cbn. rewrite Hj. cbn. now rewrite Hm.
Qed.

Example scenario_A :
  addAliases Examples.world_scenario_A
  = ([Fetch (alias_request (js "sk-test") (js "Ока") (js "Ока - река."));
      ProcessFrontMatter Examples.oka [js "Оке"; js "Окой"; js "Окою"];
      Notice msg_updated], Normal tt).
Proof. vm_compute. reflexivity. Qed.

Example scenario_B :
  addAliases Examples.world_scenario_B
  = ([Fetch (alias_request (js "sk-test") (js "Лес") (js "Лес - это экосистема."));
      ProcessFrontMatter Examples.note
        [js "Лесок"; js "Лесной"; js "лесок"; js "лесная зона"];
      Notice msg_updated], Normal tt).
Proof. vm_compute. reflexivity. Qed.

Example scenario_C :
  addAliases Examples.world_no_key = ([Notice msg_no_key], Normal tt).
Proof. reflexivity. Qed.

Example scenario_D :
  addAliases Examples.world_scenario_D
  = ([Fetch (alias_request (js "sk-test") (js "Лес") (js "Лес - это экосистема."));
      ConsoleError log_api_error (LogValue Examples.rejection_body);
      Notice (msg_api_error ++ js "invalid_api_key");
      Notice msg_no_aliases], Normal tt).
Proof. vm_compute. reflexivity. Qed.

(** * Further properties of the code *)

(** ** Every way the completion call can end *)

Lemma getAliases_outcomes (w : World) (title content : jsstring) :
  let req := alias_request (openaiApiKey (settings w)) title content in
  (exists reply,
      getAliases w title content = ([Fetch req], Normal (parse_reply reply)))
  \/ (exists e,
        getAliases w title content
        = ([Fetch req; ConsoleError log_request_error (LogError e);
            Notice msg_connection], Normal (JArr [])))
  \/ (exists errorData text,
        getAliases w title content
        = ([Fetch req; ConsoleError log_api_error (LogValue errorData);
            Notice (msg_api_error ++ text)], Normal (JArr [])))
  \/ (exists errorData e,
        getAliases w title content
        = ([Fetch req; ConsoleError log_api_error (LogValue errorData);
            ConsoleError log_request_error (LogError e);
            Notice msg_connection], Normal (JArr [])))
  \/ (exists errorData,
        getAliases w title content
        = ([Fetch req; ConsoleError log_api_error (LogValue errorData)], Unmodelled)).
Proof.
  intros req. unfold getAliases. fold req. run_monad.
  destruct (fetch w req) as [[o j]|]; cbn;
    [|right; left; exists FetchFailed; reflexivity].
  destruct o; cbn.
  - destruct j as [e|data]; cbn; [right; left; exists e; reflexivity|].
    destruct (message_content_modelled data) as [-> | (reply & ->)]; cbn.
    + right; left; exists TypeError; reflexivity.
    + left; exists reply; reflexivity.
  - destruct j as [e|errorData]; cbn; [right; left; exists e; reflexivity|].
    destruct (error_message errorData) as [message|e|] eqn:Em; cbn.
    + destruct (ToString message) as [text|e|]; cbn.
      * right; right; left; exists errorData, text; reflexivity.
      * right; right; right; left; exists errorData, e; reflexivity.
      * right; right; right; right; exists errorData; reflexivity.
    + right; right; right; left; exists errorData, e; reflexivity.
    + exfalso. unfold error_message in Em.
      destruct (get_modelled errorData (js "error")) as [H | (x & H)];
        rewrite H in Em; [discriminate|].
      destruct (get_modelled x (js "message")) as [H' | (y & H')];
        rewrite H' in Em; discriminate.
Qed.

Lemma getDeclensions_outcomes (w : World) (title : jsstring) :
  let req := Part000.declension_request (openaiApiKey (settings w)) title in
  (exists reply,
      Part000.getDeclensions w title = ([Fetch req], Normal (parse_reply reply)))
  \/ (exists e,
        Part000.getDeclensions w title
        = ([Fetch req; ConsoleError log_request_error (LogError e)], Normal (JArr [])))
  \/ (exists data,
        Part000.getDeclensions w title
        = ([Fetch req; ConsoleError log_api_error (LogValue data)], Normal (JArr []))).
Proof.
  intros req. unfold Part000.getDeclensions. fold req. run_monad.
  destruct (fetch w req) as [[o j]|]; cbn;
    [|right; left; exists FetchFailed; reflexivity].
  destruct j as [e|data]; cbn; [right; left; exists e; reflexivity|].
  destruct o; cbn; [|right; right; exists data; reflexivity].
  destruct (message_content_modelled data) as [-> | (reply & ->)]; cbn.
  - right; left; exists TypeError; reflexivity.
  - left; exists reply; reflexivity.
Qed.

Lemma getAliases_never_throws (w : World) (title content : jsstring) :
  forall e, completion (getAliases w title content) <> Throw e.
Proof.
  destruct (getAliases_outcomes w title content)
    as [(reply & ->) | [(e & ->) | [(d & text & ->) | [(d & e & ->) | (d & ->)]]]];
    discriminate.
Qed.

(** A rejected request whose [error.message] cannot be read or rendered:
    the exception reaches the handler of the outer [try], after the body
    was logged. *)
Lemma getAliases_rejected_unreadable (w : World) (title content : jsstring)
      (response : Response) (errorData : JsValue) (e : Exn) :
  fetch w (alias_request (openaiApiKey (settings w)) title content) = Some response ->
  ok response = false -> json response = inr errorData ->
  (error_message errorData = Throw e
   \/ exists message, error_message errorData = Normal message
                      /\ ToString message = Throw e) ->
  getAliases w title content
  = ([Fetch (alias_request (openaiApiKey (settings w)) title content);
      ConsoleError log_api_error (LogValue errorData);
      ConsoleError log_request_error (LogError e);
      Notice msg_connection], Normal (JArr [])).
Proof.
  intros Hf Hok Hj Hm. unfold getAliases. run_monad.
  rewrite Hf. cbn. rewrite Hok. cbn. rewrite Hj. cbn.
  destruct Hm as [Hm | (message & Hm & Hs)]; rewrite Hm; cbn; [reflexivity|].
  now rewrite Hs.
Qed.

Lemma error_message_modelled (errorData : JsValue) :
  error_message errorData = Throw TypeError
  \/ exists message, error_message errorData = Normal message.
Proof.
  unfold error_message.
  destruct (get_modelled errorData (js "error")) as [-> | (err & ->)]; [now left|].
  apply get_modelled.
Qed.

(** X1. [getAliases] never throws and never touches the document; it sends
    exactly one request, first of all (no retry).  When the response is a
    success whose body holds [choices[0].message.content] as a string, it
    returns that reply parsed, and shows nothing.  In every other case (the
    request fails, the body is not JSON, the fields are missing, the
    request is rejected) it returns the empty array and shows exactly one
    notice, about the connection or with the endpoint's message; the one
    run not covered is a rejection whose [error.message] needs a number
    rendered as text. *)
Theorem getAliases_one_request_never_throws (w : World) (title content : jsstring) :
  (forall e, completion (getAliases w title content) <> Throw e)
  /\ (exists t,
        trace (getAliases w title content)
        = Fetch (alias_request (openaiApiKey (settings w)) title content) :: t
        /\ existsb is_fetch t = false
        /\ existsb is_write t = false)
  /\ (forall response data reply,
        fetch w (alias_request (openaiApiKey (settings w)) title content) = Some response ->
        ok response = true ->
        json response = inr data ->
        message_content data = Normal reply ->
        getAliases w title content
        = ([Fetch (alias_request (openaiApiKey (settings w)) title content)],
           Normal (parse_reply reply)))
  /\ ((forall response data reply,
         fetch w (alias_request (openaiApiKey (settings w)) title content) = Some response ->
         ok response = true ->
         json response = inr data ->
         message_content data <> Normal reply) ->
      (completion (getAliases w title content) = Normal (JArr [])
       /\ exists message,
            notices (trace (getAliases w title content)) = [message]
            /\ (message = msg_connection \/ exists text, message = msg_api_error ++ text))
      \/ (completion (getAliases w title content) = Unmodelled
          /\ exists response errorData message,
               fetch w (alias_request (openaiApiKey (settings w)) title content)
               = Some response
               /\ ok response = false
               /\ json response = inr errorData
               /\ error_message errorData = Normal message
               /\ ToString message = Unmodelled)).
Proof.
  split; [apply getAliases_never_throws|].
  split.
  { destruct (getAliases_outcomes w title content)
      as [(reply & ->) | [(e & ->) | [(d & text & ->) | [(d & e & ->) | (d & ->)]]]];
      cbn [trace fst]; eexists; (split; [reflexivity|]); split; reflexivity. }
  split.
  { intros response data reply Hf Hok Hj Hm.
    exact (@getAliases_success w title content response data reply Hf Hok Hj Hm). }
  intros Hfail.
  destruct (fetch w (alias_request (openaiApiKey (settings w)) title content))
    as [response|] eqn:Hf.
  - destruct (ok response) eqn:Hok.
    + assert (Hbody : exists e,
                 json response = inl e
                 \/ exists data, json response = inr data /\ message_content data = Throw e).
      { destruct (json response) as [e|data] eqn:Hj; [exists e; now left|].
        destruct (message_content_modelled data) as [Hm | (reply & Hm)].
        - exists TypeError. right. now exists data.
        - exfalso. exact (Hfail response data reply eq_refl Hok Hj Hm). }
      destruct Hbody as (e & Hbody).
      rewrite (@getAliases_malformed w title content response e Hf Hok Hbody).
      left. split; [reflexivity|]. exists msg_connection. split; [reflexivity | now left].
    + destruct (json response) as [e|errorData] eqn:Hj.
      * left. unfold getAliases. run_monad. rewrite Hf. cbn. rewrite Hok. cbn.
        rewrite Hj. cbn. split; [reflexivity|].
        exists msg_connection. split; [reflexivity | now left].
      * destruct (error_message_modelled errorData) as [Hm | (message & Hm)].
        { rewrite (@getAliases_rejected_unreadable w title content response errorData
                     TypeError Hf Hok Hj (or_introl Hm)).
          left. split; [reflexivity|].
          exists msg_connection. split; [reflexivity | now left]. }
        destruct (ToString message) as [text|e|] eqn:Hs.
        -- left. unfold getAliases. run_monad. rewrite Hf. cbn. rewrite Hok. cbn.
           rewrite Hj. cbn. rewrite Hm. cbn. rewrite Hs. cbn.
           split; [reflexivity|].
           exists (msg_api_error ++ text). split; [reflexivity|].
           right. exists text. reflexivity.
        -- rewrite (@getAliases_rejected_unreadable w title content response errorData
                      e Hf Hok Hj
                      (or_intror (ex_intro _ message (conj Hm Hs)))).
           left. split; [reflexivity|].
           exists msg_connection. split; [reflexivity | now left].
        -- right. split.
           ++ unfold getAliases. run_monad. rewrite Hf. cbn. rewrite Hok. cbn.
              rewrite Hj. cbn. rewrite Hm. cbn. rewrite Hs. reflexivity.
           ++ exists response, errorData, message. repeat split; assumption.
  - rewrite (@getAliases_offline w title content Hf).
    left. split; [reflexivity|]. exists msg_connection. split; [reflexivity | now left].
Qed.

(** X2. The earlier revision's [getDeclensions] never throws, never touches
    the document, sends exactly one request, and shows no notice at all.
    A success whose body holds the message content returns the reply
    parsed, with nothing logged.  Each kind of failure is logged to the
    console once and gives the empty array: a request that fails or a body
    that is not JSON (whatever the status), a success body without the
    expected fields, and a rejection, whose body is what is logged. *)
Theorem getDeclensions_silent (w : World) (title : jsstring) :
  exists v t,
    Part000.getDeclensions w title
    = (Fetch (Part000.declension_request (openaiApiKey (settings w)) title) :: t,
       Normal v)
    /\ notices t = []
    /\ existsb is_fetch t = false
    /\ existsb is_write t = false
    /\ (forall response data reply,
          fetch w (Part000.declension_request (openaiApiKey (settings w)) title)
          = Some response ->
          ok response = true ->
          json response = inr data ->
          message_content data = Normal reply ->
          v = parse_reply reply /\ t = [])
    /\ (fetch w (Part000.declension_request (openaiApiKey (settings w)) title) = None ->
        v = JArr [] /\ t = [ConsoleError log_request_error (LogError FetchFailed)])
    /\ (forall response e,
          fetch w (Part000.declension_request (openaiApiKey (settings w)) title)
          = Some response ->
          json response = inl e ->
          v = JArr [] /\ t = [ConsoleError log_request_error (LogError e)])
    /\ (forall response data e,
          fetch w (Part000.declension_request (openaiApiKey (settings w)) title)
          = Some response ->
          ok response = true ->
          json response = inr data ->
          message_content data = Throw e ->
          v = JArr [] /\ t = [ConsoleError log_request_error (LogError e)])
    /\ (forall response data,
          fetch w (Part000.declension_request (openaiApiKey (settings w)) title)
          = Some response ->
          ok response = false ->
          json response = inr data ->
          v = JArr [] /\ t = [ConsoleError log_api_error (LogValue data)]).
Proof.
  unfold Part000.getDeclensions. run_monad.
  destruct (fetch w (Part000.declension_request (openaiApiKey (settings w)) title))
    as [response|]; cbn.
  - destruct (json response) as [e|data] eqn:Hj; cbn.
    + exists (JArr []), [ConsoleError log_request_error (LogError e)].
      split; [reflexivity|]. split; [reflexivity|]. split; [reflexivity|].
      split; [reflexivity|].
      split; [intros r d reply H _ Hd; injection H as <-; congruence|].
      split; [discriminate|].
      split; [intros r e' H He; injection H as <-; split; [reflexivity | congruence]|].
      split; [intros r d e' H _ Hd; injection H as <-; congruence|].
      intros r d H _ Hd; injection H as <-; congruence.
    + destruct (ok response) eqn:Hok; cbn.
      * destruct (message_content_modelled data) as [Hm | (reply & Hm)]; rewrite Hm; cbn.
        -- exists (JArr []), [ConsoleError log_request_error (LogError TypeError)].
           split; [reflexivity|]. split; [reflexivity|]. split; [reflexivity|].
           split; [reflexivity|].
           split; [intros r d reply H _ Hd; injection H as <-; congruence|].
           split; [discriminate|].
           split; [intros r e' H He; injection H as <-; congruence|].
           split; [intros r d e' H _ Hd Hm'; injection H as <-;
                   split; [reflexivity | congruence]|].
           intros r d H Hok' _; injection H as <-; congruence.
        -- exists (parse_reply reply), [].
           split; [reflexivity|]. split; [reflexivity|]. split; [reflexivity|].
           split; [reflexivity|].
           split; [intros r d reply' H _ Hd Hm'; injection H as <-;
                   split; [congruence | reflexivity]|].
           split; [discriminate|].
           split; [intros r e' H He; injection H as <-; congruence|].
           split; [intros r d e' H _ Hd Hm'; injection H as <-; congruence|].
           intros r d H Hok' _; injection H as <-; congruence.
      * exists (JArr []), [ConsoleError log_api_error (LogValue data)].
        split; [reflexivity|]. split; [reflexivity|]. split; [reflexivity|].
        split; [reflexivity|].
        split; [intros r d reply H Hok' _; injection H as <-; congruence|].
        split; [discriminate|].
        split; [intros r e' H He; injection H as <-; congruence|].
        split; [intros r d e' H Hok' _; injection H as <-; congruence|].
        intros r d H _ Hd; injection H as <-; split; [reflexivity | congruence].
  - exists (JArr []), [ConsoleError log_request_error (LogError FetchFailed)].
    split; [reflexivity|]. split; [reflexivity|]. split; [reflexivity|].
    split; [reflexivity|].
    split; [discriminate|]. split; [now split|].
    split; [discriminate|]. split; discriminate.
Qed.

(** ** The guard and the write, after the completion call *)

Lemma addAliases_unfold (w : World) (activeFile : TFile) (c : code_unit) (key : jsstring) :
  getActiveFile w = Some activeFile ->
  openaiApiKey (settings w) = c :: key ->
  addAliases w
  = bind (getAliases w (basename activeFile) (body_excerpt w activeFile))
         (guard_and_write w activeFile).
Proof.
  intros Hfile Hkey. unfold addAliases. now rewrite Hfile, Hkey.
Qed.

Lemma Part000_addAliases_unfold (w : World) (activeFile : TFile) (c : code_unit) (key : jsstring) :
  getActiveFile w = Some activeFile ->
  openaiApiKey (settings w) = c :: key ->
  Part000.addAliases w
  = bind (Part000.getDeclensions w (basename activeFile))
         (guard_and_write w activeFile).
Proof.
  intros Hfile Hkey. unfold Part000.addAliases. now rewrite Hfile, Hkey.
Qed.

Lemma no_length_turned_down (v : JsValue) :
  no_length v = true -> has_aliases v = Normal false.
Proof.
  unfold has_aliases.
  destruct v as [| |b|m e|s|l|ms]; cbn [no_length truthy]; intros H.
  - reflexivity.
  - reflexivity.
  - destruct b; reflexivity.
  - destruct (negb (rounds_to_zero m e)); reflexivity.
  - destruct s; [reflexivity | discriminate].
  - destruct l; [|discriminate]. now rewrite get_length_array.
  - unfold get. destruct (find_member (js "length") ms); [discriminate | reflexivity].
Qed.

Lemma guard_turned_down (w : World) (f : TFile) (v : JsValue) :
  no_length v = true ->
  guard_and_write w f v = ([Notice msg_no_aliases], Normal tt).
Proof.
  intros H. unfold guard_and_write. now rewrite (no_length_turned_down v H).
Qed.

(** The guard and the write never write twice, never to another file, and
    show the success notice exactly after a write. *)
Lemma guard_and_write_cases (w : World) (f : TFile) (v : JsValue) :
  guard_and_write w f v = ([Notice msg_no_aliases], Normal tt)
  \/ (exists R, guard_and_write w f v
                = ([ProcessFrontMatter f R; Notice msg_updated], Normal tt))
  \/ (exists c, c <> Normal tt /\ guard_and_write w f v = ([], c)).
Proof.
  unfold guard_and_write, updateFrontMatter. run_monad.
  destruct (has_aliases v) as [[|]|e|].
  - destruct (combinedAliases (existingAliases (getFileCache w f)) v) as [R|e|]; cbn.
    + right; left. exists R. reflexivity.
    + right; right. exists (Throw e). split; [discriminate | reflexivity].
    + right; right. exists Unmodelled. split; [discriminate | reflexivity].
  - left. reflexivity.
  - right; right. exists (Throw e). split; [discriminate | reflexivity].
  - right; right. exists Unmodelled. split; [discriminate | reflexivity].
Qed.

Lemma orchestrated_bind (w : World) (f : TFile) (m : M JsValue) :
  completion (bind m (guard_and_write w f)) = Unmodelled
  \/ orchestrated f (trace m) (bind m (guard_and_write w f)).
Proof.
  destruct m as [t c]. cbn [trace fst]. unfold bind.
  destruct c as [v|e|].
  - destruct (guard_and_write_cases w f v) as [-> | [(R & ->) | (c & Hc & ->)]].
    + right. left. reflexivity.
    + right. right; left. exists R. reflexivity.
    + destruct c as [[]|e|].
      * congruence.
      * right. right; right. exists e. now rewrite app_nil_r.
      * left. reflexivity.
  - right. right; right. exists e. reflexivity.
  - left. reflexivity.
Qed.

Lemma connection_is_not_success : msg_connection <> msg_updated.
Proof. intros H. vm_compute in H. discriminate H. Qed.

Lemma api_error_is_not_success (text : jsstring) : msg_api_error ++ text <> msg_updated.
Proof.
  intros H.
  assert (Hhd : hd 0%N (msg_api_error ++ text) = hd 0%N msg_updated)
    by (rewrite H; reflexivity).
  vm_compute in Hhd. discriminate Hhd.
Qed.

Lemma notice_inj (a b : jsstring) : Notice a = Notice b -> a = b.
Proof.
  intros H.
  exact (f_equal (fun ev => match ev with Notice m => m | _ => [] end) H).
Qed.

Lemma not_a_notice_fetch (req : Request) (message : jsstring) :
  Fetch req <> Notice message.
Proof. discriminate. Qed.

Lemma not_a_notice_log (label : jsstring) (arg : LogArg) (message : jsstring) :
  ConsoleError label arg <> Notice message.
Proof. discriminate. Qed.

Lemma getAliases_no_success_notice (w : World) (title content : jsstring) :
  ~ In (Notice msg_updated) (trace (getAliases w title content)).
Proof.
  pose proof connection_is_not_success as Hc.
  destruct (getAliases_outcomes w title content)
    as [(reply & ->) | [(e & ->) | [(d & text & ->) | [(d & e & ->) | (d & ->)]]]];
    cbn [trace fst In]; intros H.
  - destruct H as [H|[]]. exact (not_a_notice_fetch H).
  - destruct H as [H|[H|[H|[]]]].
    + exact (not_a_notice_fetch H).
    + exact (not_a_notice_log H).
    + exact (Hc (notice_inj H)).
  - destruct H as [H|[H|[H|[]]]].
    + exact (not_a_notice_fetch H).
    + exact (not_a_notice_log H).
    + exact (api_error_is_not_success (notice_inj H)).
  - destruct H as [H|[H|[H|[H|[]]]]].
    + exact (not_a_notice_fetch H).
    + exact (not_a_notice_log H).
    + exact (not_a_notice_log H).
    + exact (Hc (notice_inj H)).
  - destruct H as [H|[H|[]]].
    + exact (not_a_notice_fetch H).
    + exact (not_a_notice_log H).
Qed.

Lemma getAliases_writes_nothing (w : World) (title content : jsstring) :
  existsb is_write (trace (getAliases w title content)) = false.
Proof.
  destruct (getAliases_outcomes w title content)
    as [(reply & ->) | [(e & ->) | [(d & text & ->) | [(d & e & ->) | (d & ->)]]]];
    reflexivity.
Qed.

Lemma getDeclensions_trace (w : World) (title : jsstring) :
  existsb is_write (trace (Part000.getDeclensions w title)) = false
  /\ ~ In (Notice msg_updated) (trace (Part000.getDeclensions w title)).
Proof.
  destruct (getDeclensions_outcomes w title)
    as [(reply & ->) | [(e & ->) | (data & ->)]];
    (split; [reflexivity|]); cbn [trace fst In]; intros H.
  - destruct H as [H|[]]. exact (not_a_notice_fetch H).
  - destruct H as [H|[H|[]]].
    + exact (not_a_notice_fetch H).
    + exact (not_a_notice_log H).
  - destruct H as [H|[H|[]]].
    + exact (not_a_notice_fetch H).
    + exact (not_a_notice_log H).
Qed.

(** X5. Once both preconditions hold, every run of [addAliases] that the
    embedding covers (the host's calls resolve, no coercion is left out)
    has, in both revisions, one of three shapes: the events of the
    completion call followed by the notice that no aliases were obtained;
    or those events followed by exactly one front-matter write, to the
    active file, and then the success notice; or, when an exception
    escapes, those events and nothing more.  The events of the completion
    call hold no write and no success notice.  So the document is written
    at most once per invocation, never before the completion call has
    returned, and the success notice is shown exactly when it was
    written. *)
Theorem addAliases_is_orchestrated (w : World) (f : TFile) :
  getActiveFile w = Some f ->
  openaiApiKey (settings w) <> [] ->
  (completion (addAliases w) = Unmodelled
   \/ orchestrated f (trace (getAliases w (basename f) (body_excerpt w f)))
                   (addAliases w))
  /\ (completion (Part000.addAliases w) = Unmodelled
      \/ orchestrated f (trace (Part000.getDeclensions w (basename f)))
                      (Part000.addAliases w))
  /\ existsb is_write (trace (getAliases w (basename f) (body_excerpt w f))) = false
  /\ ~ In (Notice msg_updated) (trace (getAliases w (basename f) (body_excerpt w f)))
  /\ existsb is_write (trace (Part000.getDeclensions w (basename f))) = false
  /\ ~ In (Notice msg_updated) (trace (Part000.getDeclensions w (basename f))).
Proof.
  intros Hfile Hkey.
  destruct (openaiApiKey (settings w)) as [|c key] eqn:Ek; [congruence|].
  split.
  { rewrite (addAliases_unfold w Hfile Ek). apply orchestrated_bind. }
  split.
  { rewrite (Part000_addAliases_unfold w Hfile Ek). apply orchestrated_bind. }
  split; [apply getAliases_writes_nothing|].
  split; [apply getAliases_no_success_notice|].
  apply getDeclensions_trace.
Qed.

Lemma addAliases_is_orchestrated_witness :
  orchestrated Examples.note
    (trace (getAliases Examples.world_scenario_B (basename Examples.note)
              (body_excerpt Examples.world_scenario_B Examples.note)))
    (addAliases Examples.world_scenario_B).
Proof.
  destruct (@addAliases_is_orchestrated Examples.world_scenario_B Examples.note)
    as ([Hout | Hshape] & _).
  - reflexivity.
  - discriminate.
  - vm_compute in Hout. discriminate Hout.
  - exact Hshape.
Defined.

(** X9. A reply that parses to a JSON number, boolean or [null], to the
    empty string, to the empty array, or to an object without a [length]
    member, is turned down by the guard: in both revisions [addAliases]
    shows the notice that no aliases were obtained right after the
    completion call and writes nothing. *)
Theorem unusable_reply_is_turned_down
  (w : World) (activeFile : TFile) (t : list Event) (v : JsValue) :
  getActiveFile w = Some activeFile ->
  openaiApiKey (settings w) <> [] ->
  no_length v = true ->
  (getAliases w (basename activeFile) (body_excerpt w activeFile) = (t, Normal v) ->
   addAliases w = (t ++ [Notice msg_no_aliases], Normal tt))
  /\ (Part000.getDeclensions w (basename activeFile) = (t, Normal v) ->
      Part000.addAliases w = (t ++ [Notice msg_no_aliases], Normal tt)).
Proof.
  intros Hfile Hkey Hv.
  destruct (openaiApiKey (settings w)) as [|c key] eqn:Ek; [congruence|].
  split; intros Hget.
  - rewrite (addAliases_unfold w Hfile Ek), Hget. unfold bind.
    now rewrite (guard_turned_down w activeFile v Hv).
  - rewrite (Part000_addAliases_unfold w Hfile Ek), Hget. unfold bind.
    now rewrite (guard_turned_down w activeFile v Hv).
Qed.

Lemma unusable_reply_is_turned_down_witness :
  addAliases Examples.world_number_reply
  = ([Fetch (alias_request (js "sk-test") (js "Лес") (js "Лес - это экосистема."))]
     ++ [Notice msg_no_aliases], Normal tt).
Proof.
  destruct (@unusable_reply_is_turned_down Examples.world_number_reply Examples.note
              [Fetch (alias_request (js "sk-test") (js "Лес") (js "Лес - это экосистема."))]
              (JNum 42 0)) as [Hmain _].
  - reflexivity.
  - discriminate.
  - reflexivity.
  - apply Hmain. vm_compute. reflexivity.
Defined.

(** X3. When the endpoint rejects the request and its error body carries
    [error.message] as a string, the body is logged, the user is shown that
    message verbatim after the fixed prefix, and [addAliases] then reports
    that no aliases were obtained: four events, and no write. *)
Theorem rejection_message_is_shown
  (w : World) (activeFile : TFile) (response : Response)
  (errorData : JsValue) (text : jsstring) :
  getActiveFile w = Some activeFile ->
  openaiApiKey (settings w) <> [] ->
  fetch w (alias_request (openaiApiKey (settings w)) (basename activeFile)
             (body_excerpt w activeFile)) = Some response ->
  ok response = false ->
  json response = inr errorData ->
  error_message errorData = Normal (JStr text) ->
  addAliases w
  = ([Fetch (alias_request (openaiApiKey (settings w)) (basename activeFile)
               (body_excerpt w activeFile));
      ConsoleError log_api_error (LogValue errorData);
      Notice (msg_api_error ++ text);
      Notice msg_no_aliases], Normal tt).
Proof.
  intros Hfile Hkey Hf Hok Hj Hm.
  pose proof (@getAliases_rejected w (basename activeFile) (body_excerpt w activeFile)
                response errorData text Hf Hok Hj Hm) as Hget.
  destruct (@addAliases_nothing_returned w activeFile _ Hfile Hkey Hget) as [Hrun _].
  exact Hrun.
Qed.

Lemma rejection_message_is_shown_witness :
  addAliases Examples.world_scenario_D
  = ([Fetch (alias_request (js "sk-test") (js "Лес") (js "Лес - это экосистема."));
      ConsoleError log_api_error (LogValue Examples.rejection_body);
      Notice (msg_api_error ++ js "invalid_api_key");
      Notice msg_no_aliases], Normal tt).
Proof.
  apply (@rejection_message_is_shown Examples.world_scenario_D Examples.note
           {| ok := false; json := inr Examples.rejection_body |}
           Examples.rejection_body (js "invalid_api_key")).
  - reflexivity.
  - discriminate.
  - reflexivity.
  - reflexivity.
  - reflexivity.
  - reflexivity.
Defined.

(** X4. When the request does not reach the endpoint, the current revision
    logs the error, shows the notice about the connection and then the
    notice that no aliases were obtained; the earlier revision logs the
    error and shows only the latter notice.  Neither writes, and neither
    sends a second request. *)
Theorem transport_failure_is_reported (w : World) (activeFile : TFile) :
  getActiveFile w = Some activeFile ->
  openaiApiKey (settings w) <> [] ->
  (fetch w (alias_request (openaiApiKey (settings w)) (basename activeFile)
              (body_excerpt w activeFile)) = None ->
   addAliases w
   = ([Fetch (alias_request (openaiApiKey (settings w)) (basename activeFile)
                (body_excerpt w activeFile));
       ConsoleError log_request_error (LogError FetchFailed);
       Notice msg_connection;
       Notice msg_no_aliases], Normal tt))
  /\ (fetch w (Part000.declension_request (openaiApiKey (settings w))
                 (basename activeFile)) = None ->
      Part000.addAliases w
      = ([Fetch (Part000.declension_request (openaiApiKey (settings w))
                   (basename activeFile));
          ConsoleError log_request_error (LogError FetchFailed);
          Notice msg_no_aliases], Normal tt)).
Proof.
  intros Hfile Hkey. split; intros Hf.
  - pose proof (@getAliases_offline w (basename activeFile)
                  (body_excerpt w activeFile) Hf) as Hget.
    destruct (@addAliases_nothing_returned w activeFile _ Hfile Hkey Hget) as [Hrun _].
    exact Hrun.
  - pose proof (@getDeclensions_offline w (basename activeFile) Hf) as Hget.
    destruct (@addAliases_nothing_declined w activeFile _ Hfile Hkey Hget) as [Hrun _].
    exact Hrun.
Qed.

Lemma transport_failure_is_reported_witness :
  Part000.addAliases Examples.world_offline
  = ([Fetch (Part000.declension_request (js "sk-test") (js "Лес"));
      ConsoleError log_request_error (LogError FetchFailed);
      Notice msg_no_aliases], Normal tt).
Proof.
  destruct (@transport_failure_is_reported Examples.world_offline Examples.note)
    as [_ Hold].
  - reflexivity.
  - discriminate.
  - apply Hold. reflexivity.
Defined.

(** ** When [addAliases] throws *)

(** Spreading a value that is neither an array nor a string throws before
    anything is handed to the host. *)
Lemma updateFrontMatter_not_iterable (w : World) (f : TFile) (v : JsValue) :
  isArray v = false -> is_string v = false ->
  updateFrontMatter w f v = ([], Throw TypeError).
Proof.
  intros Ha Hs. unfold updateFrontMatter, combinedAliases.
  destruct v; try discriminate; reflexivity.
Qed.

Lemma guard_object_reply (w : World) (f : TFile)
      (ms : list (jsstring * JsValue)) (len : JsValue) :
  find_member (js "length") ms = Some len ->
  gt_zero len = Normal true ->
  guard_and_write w f (JObj ms) = ([], Throw TypeError).
Proof.
  intros Hlen Hpos. unfold guard_and_write, has_aliases, get. cbn [truthy].
  rewrite Hlen, Hpos. run_monad.
  now rewrite (@updateFrontMatter_not_iterable w f (JObj ms) eq_refl eq_refl).
Qed.

(** X11. [addAliases] has no handler of its own.  When the reply parses to
    a JSON object whose [length] member is greater than zero, the guard
    lets it through and the spread of line 147 throws a [TypeError] that
    escapes [addAliases], in both revisions: the run consists of the events
    of the completion call and nothing more, so nothing is written and no
    closing notice, of success or of failure, is shown. *)
Theorem object_reply_escapes_as_type_error
  (w : World) (activeFile : TFile) (t : list Event)
  (ms : list (jsstring * JsValue)) (len : JsValue) :
  getActiveFile w = Some activeFile ->
  openaiApiKey (settings w) <> [] ->
  find_member (js "length") ms = Some len ->
  gt_zero len = Normal true ->
  (getAliases w (basename activeFile) (body_excerpt w activeFile) = (t, Normal (JObj ms)) ->
   addAliases w = (t, Throw TypeError))
  /\ (Part000.getDeclensions w (basename activeFile) = (t, Normal (JObj ms)) ->
      Part000.addAliases w = (t, Throw TypeError))
  /\ updateFrontMatter w activeFile (JObj ms) = ([], Throw TypeError).
Proof.
  intros Hfile Hkey Hlen Hpos.
  destruct (openaiApiKey (settings w)) as [|c key] eqn:Ek; [congruence|].
  split; [|split].
  - intros Hget. rewrite (addAliases_unfold w Hfile Ek), Hget. unfold bind.
    rewrite (guard_object_reply w activeFile ms Hlen Hpos). now rewrite app_nil_r.
  - intros Hget. rewrite (Part000_addAliases_unfold w Hfile Ek), Hget. unfold bind.
    rewrite (guard_object_reply w activeFile ms Hlen Hpos). now rewrite app_nil_r.
  - now apply updateFrontMatter_not_iterable.
Qed.

Lemma object_reply_escapes_as_type_error_witness :
  addAliases Examples.world_object_reply
  = ([Fetch (alias_request (js "sk-test") (js "Лес") (js "Лес - это экосистема."))],
     Throw TypeError).
Proof.
  destruct (@object_reply_escapes_as_type_error Examples.world_object_reply Examples.note
              [Fetch (alias_request (js "sk-test") (js "Лес") (js "Лес - это экосистема."))]
              [(js "length", JNum 1 0)] (JNum 1 0)) as (Hmain & _).
  - reflexivity.
  - discriminate.
  - reflexivity.
  - reflexivity.
  - apply Hmain. vm_compute. reflexivity.
Defined.

(** ** More on the merge *)




Lemma dedup_dedup_app (l d : list jsstring) : dedup (dedup l ++ d) = dedup (l ++ d).
Proof.
  rewrite !dedup_app. rewrite (dedup_fixed (dedup_NoDup l)). f_equal.
  apply keep_first_ext. intros y. apply dedup_In.
Qed.

(** X7. Merging in two steps is merging at once: the aliases written after
    discovering [D1] and then [D2] are those written when [D1 ++ D2] is
    discovered in one go. *)
Theorem merge_in_steps (fm : JsValue) (D1 D2 R1 : list jsstring) :
  merge fm D1 = Normal R1 ->
  merge (fm_value (Sequence R1)) D2 = merge fm (D1 ++ D2).
Proof.
  rewrite !merge_strings. cbn [fm_value]. rewrite existingAliases_sequence, strings_of_map.
  destruct (strings_of (existingAliases (cache_with fm))) as [E|]; [|discriminate].
  intros H. injection H as <-. f_equal.
  now rewrite dedup_dedup_app, app_assoc.
Qed.

Lemma merge_in_steps_witness :
  merge (fm_value (Sequence [js "Лесок"; js "Лесной"])) [js "лесок"; js "Лесной"]
  = merge (JStr (js "Лесок")) ([js "Лесной"] ++ [js "лесок"; js "Лесной"]).
Proof.
  apply (@merge_in_steps (JStr (js "Лесок")) [js "Лесной"] [js "лесок"; js "Лесной"]
           [js "Лесок"; js "Лесной"]).
  reflexivity.
Defined.

(** X8. When every discovered alias is already among the existing ones,
    and these hold no value twice, [updateFrontMatter] writes the existing
    sequence back unchanged, element for element. *)
Theorem nothing_new_writes_back (w : World) (file : TFile) (E D : list jsstring) :
  getFileCache w file = cache_with (JArr (map JStr E)) ->
  NoDup E ->
  (forall s, In s D -> In s E) ->
  updateFrontMatter w file (JArr (map JStr D))
  = ([ProcessFrontMatter file E], Normal tt).
Proof.
  intros Hc Hnd Hsub.
  rewrite (@updateFrontMatter_merge w file (JArr (map JStr E)) D Hc).
  rewrite merge_sequence, dedup_app, (dedup_fixed Hnd).
  now rewrite (keep_first_seen D E Hsub), app_nil_r.
Qed.

Lemma nothing_new_writes_back_witness :
  updateFrontMatter Examples.world_scenario_B Examples.note
    (JArr (map JStr [js "Лесок"; js "Лесок"]))
  = ([ProcessFrontMatter Examples.note [js "Лесок"]], Normal tt).
Proof.
  apply (@nothing_new_writes_back Examples.world_scenario_B Examples.note
           [js "Лесок"] [js "Лесок"; js "Лесок"]).
  - reflexivity.
  - constructor; [intros [] | constructor].
  - intros s [<- | [<- | []]]; now left.
Defined.

(** ** More on the fallback of the reply parser *)

Lemma trim_In (c : code_unit) (s : jsstring) : In c (trim s) -> In c s.
Proof.
  destruct (trim_spec s) as (before & after & Hs & _).
  intros H. rewrite Hs. apply in_app_iff. right. apply in_app_iff. now left.
Qed.

Lemma split_without_separator (sep : code_unit) (s : jsstring) :
  ~ In sep s -> split sep s = [s].
Proof.
  induction s as [|c s IH]; intros Hn; [reflexivity|]. simpl.
  destruct (N.eqb_spec c sep) as [->|Hne]; [exfalso; apply Hn; now left|].
  rewrite IH; [reflexivity|]. intros H. apply Hn. now right.
Qed.

(** X10. When [JSON.parse] throws, the reply becomes one alias for each
    piece between commas (one more piece than there are commas, so never
    none), in the order of the text; no alias holds a comma, and none
    starts or ends with white space.  A reply without a comma gives the
    single alias that is the reply, trimmed. *)
Theorem fallback_segments (content : jsstring) (e : Exn) :
  JSON_parse content = inl e ->
  exists segs,
    parse_reply content = JArr (map JStr segs)
    /\ segs = map trim (split comma content)
    /\ List.length segs = S (List.length (filter (N.eqb comma) content))
    /\ Forall (fun seg =>
                 ~ In comma seg
                 /\ (forall c r, seg = c :: r -> is_whitespace c = false)
                 /\ (forall c r, seg = r ++ [c] -> is_whitespace c = false)) segs
    /\ (~ In comma content -> segs = [trim content]).
Proof.
  intros H. exists (map trim (split comma content)).
  split; [unfold parse_reply; rewrite H; now rewrite map_map|].
  split; [reflexivity|].
  split; [now rewrite length_map, split_length|].
  split.
  - apply Forall_map. pose proof (split_segments comma content) as Hseg.
    induction Hseg as [|seg segs Hno _ IH]; constructor; [|exact IH].
    destruct (trim_spec seg) as (_ & _ & _ & _ & _ & Hfirst & Hlast).
    split; [intros Hin; apply Hno; now apply trim_In|].
    split; assumption.
  - intros Hno. now rewrite (@split_without_separator comma content Hno).
Qed.

Lemma fallback_segments_witness :
  exists segs,
    parse_reply (js "Лесной, лесок ,лесная зона") = JArr (map JStr segs)
    /\ segs = map trim (split comma (js "Лесной, лесок ,лесная зона"))
    /\ List.length segs
       = S (List.length (filter (N.eqb comma) (js "Лесной, лесок ,лесная зона")))
    /\ Forall (fun seg =>
                 ~ In comma seg
                 /\ (forall c r, seg = c :: r -> is_whitespace c = false)
                 /\ (forall c r, seg = r ++ [c] -> is_whitespace c = false)) segs
    /\ (~ In comma (js "Лесной, лесок ,лесная зона") ->
        segs = [trim (js "Лесной, лесок ,лесная зона")]).
Proof.
  apply (@fallback_segments (js "Лесной, лесок ,лесная зона") SyntaxError).
  vm_compute. reflexivity.
Defined.

(** ** More on the removal of the front matter *)

Lemma strip_prefix_first_fence (L rest r : jsstring) :
  L <> [] ->
  strip_prefix fence_close (L ++ fence_close ++ rest) = Some r ->
  occurs fence_close (L ++ firstn 4 fence_close).
Proof.
  intros HL H. apply strip_prefix_Some in H.
  assert (HF : fence_close = firstn 4 fence_close ++ [10%N]) by reflexivity.
  assert (HlenF : List.length fence_close = 5%nat) by reflexivity.
  assert (Hlen4 : List.length (firstn 4 fence_close) = 4%nat) by reflexivity.
  set (F4 := firstn 4 fence_close) in *.
  exists [], (firstn (List.length L - 1) r). cbn [app].
  assert (Hl : (List.length (L ++ F4) + 0 = List.length fence_close + (List.length L - 1))%nat).
  { rewrite length_app, HlenF, Hlen4. destruct L; [congruence | simpl; lia]. }
  assert (Hcut : firstn (List.length (L ++ F4) + 0) ((L ++ F4) ++ [10%N] ++ rest)
                 = firstn (List.length fence_close + (List.length L - 1)) (fence_close ++ r)).
  { rewrite <- Hl. f_equal. rewrite <- H.
    rewrite <- app_assoc. reflexivity. }
  rewrite !firstn_app_2 in Hcut. cbn [firstn] in Hcut.
  now rewrite app_nil_r in Hcut.
Qed.

Lemma after_first_exact (inner rest : jsstring) :
  ~ occurs fence_close (inner ++ firstn 4 fence_close) ->
  after_first fence_close (inner ++ fence_close ++ rest) = Some rest.
Proof.
  induction inner as [|c inner IH]; intros Hno.
  - cbn [app]. apply after_first_here. apply strip_prefix_app.
  - cbn [app after_first].
    destruct (strip_prefix fence_close (c :: inner ++ fence_close ++ rest)) as [r|] eqn:E.
    + exfalso. apply Hno.
      apply (@strip_prefix_first_fence (c :: inner) rest r); [discriminate | exact E].
    + apply IH. intros (a & b & Hab). apply Hno.
      exists (c :: a), b. cbn [app]. now rewrite Hab.
Qed.

(** X16. The lazy match ends at the first closing fence.  When nothing
    inside the block reads as a closing fence, exactly the block is removed
    and the rest of the note is kept whole, whatever it holds, further
    [---] lines included. *)
Theorem front_matter_ends_at_first_fence (inner rest : jsstring) :
  ~ occurs fence_close (inner ++ firstn 4 fence_close) ->
  remove_front_matter (fence_open ++ inner ++ fence_close ++ rest) = rest.
Proof.
  intros Hno. unfold remove_front_matter.
  rewrite strip_prefix_app. now rewrite (@after_first_exact inner rest Hno).
Qed.

Lemma after_first_None (pat s : jsstring) :
  after_first pat s = None -> ~ occurs pat s.
Proof.
  intros Hnone (a & b & ->).
  destruct (after_first_app pat a b) as (pre & r & Ha & _). congruence.
Qed.

Lemma front_matter_ends_at_first_fence_witness :
  remove_front_matter
    (fence_open ++ Examples.front_inner ++ fence_close ++ Examples.ruled_rest)
  = Examples.ruled_rest.
Proof.
  apply (@front_matter_ends_at_first_fence Examples.front_inner Examples.ruled_rest).
  apply after_first_None. vm_compute. reflexivity.
Defined.

(** ** Loading and saving the settings *)

Lemma find_member_app (k : jsstring) (a b : list (jsstring * JsValue)) :
  find_member k (a ++ b) =
  match find_member k b with
  | Some v => Some v
  | None => find_member k a
  end.
Proof.
  induction a as [|[k' v'] a IH]; simpl.
  - now destruct (find_member k b).
  - rewrite IH. destruct (find_member k b); [reflexivity|].
    reflexivity.
Qed.

Lemma find_member_None_cons (k k' : jsstring) (v : JsValue) (ms : list (jsstring * JsValue)) :
  find_member k ((k', v) :: ms) = None ->
  eqb k' k = false /\ find_member k ms = None.
Proof.
  simpl. destruct (find_member k ms); [discriminate|].
  destruct (eqb k' k); [discriminate | auto].
Qed.

(** Without a [__proto__] member, every property is copied, in order. *)
Lemma assign_from_plain (props : list (jsstring * JsValue)) :
  forall target,
    find_member proto_key props = None ->
    assign_from target props = Normal (target ++ props).
Proof.
  induction props as [|[k v] props IH]; intros target H; simpl.
  - now rewrite app_nil_r.
  - apply find_member_None_cons in H as [Hk Hrest]. rewrite Hk.
    rewrite (IH _ Hrest). unfold set_member. now rewrite <- app_assoc.
Qed.

Lemma DEFAULT_SETTINGS_plain : find_member proto_key DEFAULT_SETTINGS = None.
Proof. reflexivity. Qed.

Lemma loadSettings_object (ms : list (jsstring * JsValue)) :
  find_member proto_key ms = None ->
  loadSettings (JObj ms) = Normal (DEFAULT_SETTINGS ++ ms).
Proof.
  intros H. unfold loadSettings. cbn [Object_assign own_enumerable].
  rewrite (@assign_from_plain DEFAULT_SETTINGS [] DEFAULT_SETTINGS_plain). cbn [app].
  now rewrite (@assign_from_plain ms DEFAULT_SETTINGS H).
Qed.

(** X12. The defaulting rule of [loadSettings]: for stored data that is an
    object, every key it holds wins and every key it lacks falls back to
    [DEFAULT_SETTINGS]; keys the defaults do not know are kept.  With
    nothing stored ([null]) the settings are the defaults: an empty API key
    and a cap of 2000. *)
Theorem loadSettings_backfills_defaults (ms : list (jsstring * JsValue)) :
  find_member proto_key ms = None ->
  (exists obj,
      loadSettings (JObj ms) = Normal obj
      /\ forall k,
           find_member k obj =
           match find_member k ms with
           | Some v => Some v
           | None => find_member k DEFAULT_SETTINGS
           end)
  /\ loadSettings JNull = Normal DEFAULT_SETTINGS
  /\ settings_view DEFAULT_SETTINGS
     = Some {| openaiApiKey := []; maxContentLength := 2000 |}.
Proof.
  intros H. split.
  - exists (DEFAULT_SETTINGS ++ ms). split; [now apply loadSettings_object|].
    intros k. apply find_member_app.
  - split; reflexivity.
Qed.

Lemma loadSettings_backfills_defaults_witness :
  exists obj,
    loadSettings (JObj [(js "openaiApiKey", JStr (js "sk-test"))]) = Normal obj
    /\ settings_view obj
       = Some {| openaiApiKey := js "sk-test"; maxContentLength := 2000 |}.
Proof.
  destruct (@loadSettings_backfills_defaults [(js "openaiApiKey", JStr (js "sk-test"))])
    as ((obj & Hload & Hfind) & _).
  - reflexivity.
  - exists obj. split; [exact Hload|].
    unfold settings_view. rewrite !Hfind. reflexivity.
Defined.

(** X13. Saving and loading round-trip: the settings object handed to
    [saveData], loaded again by [loadSettings], is read by [addAliases] as
    the same API key and the same cap. *)
Theorem saved_settings_load_back (s : AddAliasPluginSettings) (data : JsValue) :
  (Z.abs (maxContentLength s) <= 2 ^ 53)%Z ->
  exists obj,
    loadSettings
      (stored_data (saveSettings {| this_settings := settings_object s;
                                    stored_data := data |}))
    = Normal obj
    /\ settings_view obj = Some s.
Proof.
  intros Hmax. cbn [saveSettings stored_data this_settings].
  exists (DEFAULT_SETTINGS ++ settings_object s).
  split; [apply loadSettings_object; reflexivity|].
  unfold settings_view. rewrite !find_member_app.
  change (find_member (js "openaiApiKey") (settings_object s))
    with (Some (JStr (openaiApiKey s))).
  change (find_member (js "maxContentLength") (settings_object s))
    with (Some (JNum (maxContentLength s) 0)).
  cbn [Z.leb Z.compare andb]. rewrite Z.pow_0_r, Z.mul_1_r.
  destruct (Z.leb_spec (Z.abs (maxContentLength s)) (2 ^ 53)) as [_|Hgt]; [|lia].
  now destruct s.
Qed.

Lemma saved_settings_load_back_witness :
  exists obj,
    loadSettings
      (stored_data (saveSettings {| this_settings := settings_object Examples.config;
                                    stored_data := JNull |}))
    = Normal obj
    /\ settings_view obj = Some Examples.config.
Proof.
  apply (@saved_settings_load_back Examples.config JNull).
  intros H. discriminate H.
Defined.

(** ** The settings tab *)

Lemma trimStart_all_whitespace (s : jsstring) :
  Forall (fun c => is_whitespace c = true) s -> trimStart s = [].
Proof.
  induction 1 as [|c s Hc _ IH]; [reflexivity|]. simpl. now rewrite Hc.
Qed.

Lemma trim_all_whitespace (s : jsstring) :
  Forall (fun c => is_whitespace c = true) s -> trim s = [].
Proof.
  intros H. unfold trim, trimEnd. now rewrite (trimStart_all_whitespace H).
Qed.

Lemma find_member_set_same (obj : list (jsstring * JsValue)) (k : jsstring) (v : JsValue) :
  find_member k (set_member obj k v) = Some v.
Proof.
  unfold set_member. now rewrite find_member_app, find_member_single.
Qed.

Lemma find_member_set_other (obj : list (jsstring * JsValue)) (k k' : jsstring) (v : JsValue) :
  k' <> k -> find_member k' (set_member obj k v) = find_member k' obj.
Proof.
  intros Hne. unfold set_member. rewrite find_member_app. simpl.
  apply not_eq_sym, eqb_neq in Hne. now rewrite Hne.
Qed.

(** X14. Whatever is typed into the API-key field, the key kept is that
    text without leading and trailing white space, no other setting
    changes, and the new settings are saved at once.  A text of white space
    only therefore stores the empty key, with which [addAliases] stops at
    the notice asking for the key. *)
Theorem api_key_field_trims_and_saves (p : Plugin) (value : jsstring) :
  find_member (js "openaiApiKey") (this_settings (onChange_openaiApiKey p value))
  = Some (JStr (trim value))
  /\ (forall k, k <> js "openaiApiKey" ->
                find_member k (this_settings (onChange_openaiApiKey p value))
                = find_member k (this_settings p))
  /\ stored_data (onChange_openaiApiKey p value)
     = JObj (this_settings (onChange_openaiApiKey p value))
  /\ (forall c r, trim value = c :: r -> is_whitespace c = false)
  /\ (forall c r, trim value = r ++ [c] -> is_whitespace c = false)
  /\ (Forall (fun c => is_whitespace c = true) value ->
      forall (w : World) (activeFile : TFile),
        settings_view (this_settings (onChange_openaiApiKey p value)) = Some (settings w) ->
        getActiveFile w = Some activeFile ->
        addAliases w = ([Notice msg_no_key], Normal tt)).
Proof.
  cbn [onChange_openaiApiKey saveSettings this_settings stored_data].
  split; [apply find_member_set_same|].
  split; [intros k Hk; now apply find_member_set_other|].
  split; [reflexivity|].
  destruct (trim_spec value) as (_ & _ & _ & _ & _ & Hfirst & Hlast).
  split; [exact Hfirst|]. split; [exact Hlast|].
  intros Hws w activeFile Hview Hfile.
  unfold settings_view in Hview. rewrite find_member_set_same in Hview.
  rewrite (trim_all_whitespace Hws) in Hview.
  destruct (find_member (js "maxContentLength") _) as [[| | |m e| | |]|];
    try discriminate.
  destruct ((0 <=? e) && (Z.abs (m * 10 ^ e) <=? 2 ^ 53))%Z; [|discriminate].
  injection Hview as Hs. unfold addAliases. rewrite Hfile, <- Hs. reflexivity.
Qed.

Lemma digit_not_whitespace (c : code_unit) : is_digit c = true -> is_whitespace c = false.
Proof.
  unfold is_digit, is_whitespace. rewrite andb_true_iff, !N.leb_le.
  intros [Hlo Hhi].
  repeat match goal with
         | |- context [N.leb ?a ?b] => destruct (N.leb_spec a b); try lia
         | |- context [N.eqb ?a ?b] => destruct (N.eqb_spec a b); try lia
         end;
    try reflexivity.
Qed.

Lemma radix_digit_decimal (c : code_unit) :
  is_digit c = true -> radix_digit 10 c = Some (c - 48)%N.
Proof.
  intros Hd. unfold radix_digit, hex_digit. rewrite Hd.
  unfold is_digit in Hd. apply andb_true_iff in Hd as [Hlo Hhi].
  apply N.leb_le in Hlo, Hhi.
  destruct (N.ltb_spec (c - 48) 10); [reflexivity | lia].
Qed.

Lemma radix_digit_not_decimal (c : code_unit) :
  is_digit c = false -> radix_digit 10 c = None.
Proof.
  intros Hd. unfold radix_digit, hex_digit. rewrite Hd.
  destruct ((97 <=? c)%N && (c <=? 102)%N) eqn:Elow.
  - apply andb_true_iff in Elow as [Hlo Hhi]. apply N.leb_le in Hlo, Hhi.
    destruct (N.ltb_spec (c - 87) 10); [lia | reflexivity].
  - destruct ((65 <=? c)%N && (c <=? 70)%N) eqn:Eup; [|reflexivity].
    apply andb_true_iff in Eup as [Hlo Hhi]. apply N.leb_le in Hlo, Hhi.
    destruct (N.ltb_spec (c - 55) 10); [lia | reflexivity].
Qed.

Lemma take_decimal_digits (digits tail : jsstring) :
  Forall (fun c => is_digit c = true) digits ->
  (tail = [] \/ exists c r, tail = c :: r /\ is_digit c = false) ->
  take_radix_digits 10 (digits ++ tail) = map (fun c => (c - 48)%N) digits.
Proof.
  intros Hd Htail. induction Hd as [|c digits Hc _ IH]; simpl.
  - destruct Htail as [-> | (c & r & -> & Hc)]; [reflexivity|].
    simpl. now rewrite (radix_digit_not_decimal c Hc).
  - now rewrite (radix_digit_decimal c Hc), IH.
Qed.

(** The number a text denotes for [parseInt] when, after white space, it
    starts with decimal digits, the first of them not [0]. *)
Lemma parseInt_decimal (ws digits tail : jsstring) (d : code_unit) :
  Forall (fun c => is_whitespace c = true) ws ->
  Forall (fun c => is_digit c = true) (d :: digits) ->
  d <> 48%N ->
  (tail = [] \/ exists c r, tail = c :: r /\ is_digit c = false) ->
  (radix_value 10 (map (fun c => (c - 48)%N) (d :: digits)) <= 2 ^ 53)%Z ->
  parseInt (ws ++ (d :: digits) ++ tail)
  = Normal (Int (radix_value 10 (map (fun c => (c - 48)%N) (d :: digits)))).
Proof.
  intros Hws Hd Hnz Htail Hmax. unfold parseInt.
  assert (Hd0 : is_digit d = true) by now inversion Hd.
  assert (Hstart : trimStart (ws ++ (d :: digits) ++ tail) = (d :: digits) ++ tail).
  { clear -Hws Hd0. induction Hws as [|c ws Hc _ IH]; simpl.
    - now rewrite (digit_not_whitespace d Hd0).
    - now rewrite Hc. }
  rewrite Hstart. cbn [app].
  assert (Hrange : (48 <= d /\ d <= 57)%N).
  { unfold is_digit in Hd0. apply andb_true_iff in Hd0 as [Hlo Hhi].
    now apply N.leb_le in Hlo, Hhi. }
  destruct (N.eqb_spec d 45) as [|_]; [lia|].
  destruct (N.eqb_spec d 43) as [|_]; [lia|].
  destruct (N.eqb_spec d 48) as [|_]; [contradiction|]. cbn [andb].
  assert (Hsame : forall l : jsstring,
             match l with
             | [] => (10%N, d :: digits ++ tail)
             | _ :: _ => (10%N, d :: digits ++ tail)
             end = (10%N, d :: digits ++ tail)) by (intros []; reflexivity).
  rewrite Hsame.
  change (d :: digits ++ tail) with ((d :: digits) ++ tail).
  rewrite (take_decimal_digits Hd Htail).
  cbn [map]. cbn [map] in Hmax.
  destruct (Z.leb_spec (radix_value 10 ((d - 48)%N :: map (fun c => (c - 48)%N) digits))
                       (2 ^ 53)) as [_|Hgt]; [reflexivity | lia].
Qed.

(** X15. A positive decimal number typed into the maximum-length field,
    possibly after white space and possibly followed by other text (which
    is ignored), becomes the cap and is saved at once; the API key is not
    touched. *)
Theorem max_length_field_takes_a_number
  (p : Plugin) (ws digits tail : jsstring) (d : code_unit) :
  Forall (fun c => is_whitespace c = true) ws ->
  Forall (fun c => is_digit c = true) (d :: digits) ->
  d <> 48%N ->
  (tail = [] \/ exists c r, tail = c :: r /\ is_digit c = false) ->
  (0 < radix_value 10 (map (fun c => (c - 48)%N) (d :: digits)) <= 2 ^ 53)%Z ->
  exists p',
    onChange_maxContentLength p (ws ++ (d :: digits) ++ tail) = Normal p'
    /\ find_member (js "maxContentLength") (this_settings p')
       = Some (JNum (radix_value 10 (map (fun c => (c - 48)%N) (d :: digits))) 0)
    /\ find_member (js "openaiApiKey") (this_settings p')
       = find_member (js "openaiApiKey") (this_settings p)
    /\ stored_data p' = JObj (this_settings p').
Proof.
  intros Hws Hd Hnz Htail [Hpos Hmax].
  unfold onChange_maxContentLength.
  rewrite (parseInt_decimal Hws Hd Hnz Htail Hmax).
  destruct (Z.ltb_spec 0 (radix_value 10 (map (fun c => (c - 48)%N) (d :: digits))))
    as [_|Hle]; [|lia].
  eexists. split; [reflexivity|].
  cbn [saveSettings this_settings stored_data].
  split; [apply find_member_set_same|].
  split; [|reflexivity].
  apply find_member_set_other. intros H. vm_compute in H. discriminate H.
Qed.

Lemma max_length_field_takes_a_number_witness :
  exists p',
    onChange_maxContentLength Examples.fresh_plugin (js " 1500 chars") = Normal p'
    /\ find_member (js "maxContentLength") (this_settings p') = Some (JNum 1500 0)
    /\ find_member (js "openaiApiKey") (this_settings p')
       = find_member (js "openaiApiKey") (this_settings Examples.fresh_plugin)
    /\ stored_data p' = JObj (this_settings p').
Proof.
  apply (@max_length_field_takes_a_number Examples.fresh_plugin
           (js " ") (js "500") (js " chars") 49%N).
  - repeat constructor.
  - repeat constructor.
  - discriminate.
  - right. exists 32%N, (js "chars"). split; reflexivity.
  - split; [reflexivity | intros H; discriminate H].
Defined.

Lemma radix_value_nonneg (radix : N) (ds : list N) : (0 <= radix_value radix ds)%Z.
Proof.
  unfold radix_value.
  assert (H : forall acc, (0 <= acc)%Z ->
            (0 <= fold_left (fun a d => (Z.of_N radix * a + Z.of_N d)%Z) ds acc)%Z).
  { induction ds as [|d ds IH]; intros acc Hacc; simpl; [assumption|].
    apply IH. nia. }
  apply H. lia.
Qed.

Lemma trimStart_length (s : jsstring) :
  (List.length (trimStart s) <= List.length s)%nat.
Proof.
  induction s as [|c s IH]; simpl; [lia|].
  destruct (is_whitespace c); simpl; lia.
Qed.

Lemma take_radix_digits_length (radix : N) (s : jsstring) :
  (List.length (take_radix_digits radix s) <= List.length s)%nat
  /\ Forall (fun d => (d < radix)%N) (take_radix_digits radix s).
Proof.
  induction s as [|c s [IHlen IHall]]; simpl; [split; [lia | constructor]|].
  unfold radix_digit. destruct (hex_digit c) as [d|]; [|split; [simpl; lia | constructor]].
  destruct (N.ltb_spec d radix) as [Hd|_]; [|split; [simpl; lia | constructor]].
  split; [simpl; lia | now constructor].
Qed.

(** A run of [n] digits denotes a number below [radix ^ n]. *)
Lemma radix_value_bound (radix : N) (ds : list N) :
  Forall (fun d => (d < radix)%N) ds ->
  (radix_value radix ds < Z.of_N radix ^ Z.of_nat (List.length ds))%Z.
Proof.
  intros Hds. unfold radix_value.
  assert (H : forall acc, (0 <= acc)%Z ->
            (fold_left (fun a d => (Z.of_N radix * a + Z.of_N d)%Z) ds acc + 1
             <= (acc + 1) * Z.of_N radix ^ Z.of_nat (List.length ds))%Z).
  { induction Hds as [|d ds Hd _ IH]; intros acc Hacc.
    - simpl. lia.
    - cbn [fold_left List.length]. rewrite Nat2Z.inj_succ, Z.pow_succ_r by lia.
      specialize (IH (Z.of_N radix * acc + Z.of_N d)%Z ltac:(nia)).
      assert (Hpow : (0 <= Z.of_N radix ^ Z.of_nat (List.length ds))%Z)
        by (apply Z.pow_nonneg; lia).
      nia. }
  specialize (H 0%Z ltac:(lia)). lia.
Qed.

(** A text of at most fifteen code units holds no number beyond [2^53]. *)
Lemma parseInt_short (value : jsstring) :
  (List.length value <= 15)%nat ->
  parseInt value = Normal NaN
  \/ exists num, parseInt value = Normal (Int num) /\ (Z.abs num <= 2 ^ 53)%Z.
Proof.
  intros Hlen. unfold parseInt.
  pose proof (trimStart_length value) as Htrim.
  set (S0 := trimStart value) in *.
  assert (Hdigits : forall (negative : bool) (R : N) (S : jsstring),
             (R = 10%N /\ (List.length S <= 15)%nat)
             \/ (R = 16%N /\ (List.length S <= 13)%nat) ->
             match take_radix_digits R S with
             | [] => Normal NaN
             | _ :: _ =>
               if (radix_value R (take_radix_digits R S) <=? 2 ^ 53)%Z
               then Normal (Int (if negative
                                 then - radix_value R (take_radix_digits R S)
                                 else radix_value R (take_radix_digits R S))%Z)
               else Unmodelled
             end = Normal NaN
             \/ exists num,
                 match take_radix_digits R S with
                 | [] => Normal NaN
                 | _ :: _ =>
                   if (radix_value R (take_radix_digits R S) <=? 2 ^ 53)%Z
                   then Normal (Int (if negative
                                     then - radix_value R (take_radix_digits R S)
                                     else radix_value R (take_radix_digits R S))%Z)
                   else Unmodelled
                 end = Normal (Int num) /\ (Z.abs num <= 2 ^ 53)%Z).
  { intros negative R S HR.
    destruct (take_radix_digits_length R S) as [Hl Hall].
    pose proof (radix_value_bound Hall) as Hbound.
    pose proof (radix_value_nonneg R (take_radix_digits R S)) as Hnn.
    destruct (take_radix_digits R S) as [|d ds] eqn:Ed; [now left|].
    right.
    assert (Hmax : (radix_value R (d :: ds) <= 2 ^ 53)%Z).
    { destruct HR as [[-> HS] | [-> HS]].
      - assert (Hp : (Z.of_N 10 ^ Z.of_nat (List.length (d :: ds)) <= 10 ^ 15)%Z)
          by (apply Z.pow_le_mono_r; lia).
        assert (H15 : (10 ^ 15 <= 2 ^ 53)%Z) by (vm_compute; discriminate).
        lia.
      - assert (Hp : (Z.of_N 16 ^ Z.of_nat (List.length (d :: ds)) <= 16 ^ 13)%Z)
          by (apply Z.pow_le_mono_r; lia).
        assert (H13 : (16 ^ 13 <= 2 ^ 53)%Z) by (vm_compute; discriminate).
        lia. }
    destruct (Z.leb_spec (radix_value R (d :: ds)) (2 ^ 53)) as [_|Hgt]; [|lia].
    eexists. split; [reflexivity|]. destruct negative; lia. }
  destruct S0 as [|c r] eqn:E0.
  - left. reflexivity.
  - cbn [List.length] in Htrim.
    assert (Hsigned : forall (negative : bool) (S : jsstring),
               (List.length S <= 15)%nat ->
               (let (R, S') :=
                  match S with
                  | z :: x :: r0 =>
                    if N.eqb z 48 && (N.eqb x 120 || N.eqb x 88)
                    then (16%N, r0) else (10%N, S)
                  | _ => (10%N, S)
                  end in
                match take_radix_digits R S' with
                | [] => Normal NaN
                | ds =>
                  let mathInt := radix_value R ds in
                  if (mathInt <=? 2 ^ 53)%Z
                  then Normal (Int (if negative then - mathInt else mathInt)%Z)
                  else Unmodelled
                end) = Normal NaN
               \/ exists num,
                   (let (R, S') :=
                      match S with
                      | z :: x :: r0 =>
                        if N.eqb z 48 && (N.eqb x 120 || N.eqb x 88)
                        then (16%N, r0) else (10%N, S)
                      | _ => (10%N, S)
                      end in
                    match take_radix_digits R S' with
                    | [] => Normal NaN
                    | ds =>
                      let mathInt := radix_value R ds in
                      if (mathInt <=? 2 ^ 53)%Z
                      then Normal (Int (if negative then - mathInt else mathInt)%Z)
                      else Unmodelled
                    end) = Normal (Int num) /\ (Z.abs num <= 2 ^ 53)%Z).
    { intros negative S HS.
      destruct S as [|z [|x r0]].
      - left. reflexivity.
      - specialize (Hdigits negative 10%N [z] (or_introl (conj eq_refl HS))).
        destruct (take_radix_digits 10 [z]); exact Hdigits.
      - destruct (N.eqb z 48 && (N.eqb x 120 || N.eqb x 88)).
        + cbn [List.length] in HS.
          assert (Hr0 : (List.length r0 <= 13)%nat) by lia.
          specialize (Hdigits negative 16%N r0 (or_intror (conj eq_refl Hr0))).
          destruct (take_radix_digits 16 r0); exact Hdigits.
        + specialize (Hdigits negative 10%N (z :: x :: r0) (or_introl (conj eq_refl HS))).
          destruct (take_radix_digits 10 (z :: x :: r0)); exact Hdigits. }
    destruct (N.eqb c 45).
    + apply (Hsigned true r). lia.
    + destruct (N.eqb c 43).
      * apply (Hsigned false r). lia.
      * apply (Hsigned false (c :: r)). cbn [List.length]. lia.
Qed.

(** X17. For a text of at most fifteen characters (no number beyond
    [2^53] fits in it), the maximum-length field never stores anything but
    a positive integer: either the plugin is left exactly as it was
    (settings and stored data; nothing is saved) -- this is what happens
    when [parseInt] gives [NaN], zero or a negative number -- or the cap
    becomes the positive integer that was read and the settings are saved.
    A cap that was positive stays positive, and the API key is never
    changed. *)
Theorem max_length_field_keeps_cap_positive
  (p : Plugin) (value : jsstring) (s : AddAliasPluginSettings) :
  (List.length value <= 15)%nat ->
  settings_view (this_settings p) = Some s ->
  (0 < maxContentLength s)%Z ->
  exists p' s',
    onChange_maxContentLength p value = Normal p'
    /\ settings_view (this_settings p') = Some s'
    /\ (0 < maxContentLength s')%Z
    /\ openaiApiKey s' = openaiApiKey s
    /\ ((p' = p
         /\ (parseInt value = Normal NaN
             \/ exists num, parseInt value = Normal (Int num) /\ (num <= 0)%Z))
        \/ (parseInt value = Normal (Int (maxContentLength s'))
            /\ stored_data p' = JObj (this_settings p'))).
Proof.
  intros Hlen Hview Hpos. unfold onChange_maxContentLength.
  destruct (parseInt_short value Hlen) as [Hp | (num & Hp & Hbound)]; rewrite Hp.
  - exists p, s. repeat (split; [assumption || reflexivity|]).
    left. split; [reflexivity | now left].
  - destruct (Z.ltb_spec 0 num) as [Hnum|Hnum].
    + eexists.
      exists {| openaiApiKey := openaiApiKey s; maxContentLength := num |}.
      split; [reflexivity|].
      cbn [saveSettings this_settings stored_data openaiApiKey maxContentLength].
      split.
      { unfold settings_view in *.
        rewrite find_member_set_same.
        rewrite find_member_set_other by (intros H; vm_compute in H; discriminate H).
        destruct (find_member (js "openaiApiKey") (this_settings p)) as [[| | | |key| |]|];
          try discriminate.
        destruct (find_member (js "maxContentLength") (this_settings p))
          as [[| | |m e| | |]|]; try discriminate.
        destruct ((0 <=? e) && (Z.abs (m * 10 ^ e) <=? 2 ^ 53))%Z; [|discriminate].
        injection Hview as <-. cbn [openaiApiKey].
        cbn [Z.leb Z.compare andb]. rewrite Z.pow_0_r, Z.mul_1_r.
        destruct (Z.leb_spec (Z.abs num) (2 ^ 53)) as [_|Hgt]; [reflexivity | lia]. }
      split; [assumption|]. split; [reflexivity|].
      right. split; reflexivity.
    + exists p, s. repeat (split; [assumption || reflexivity|]).
      left. split; [reflexivity|]. right. now exists num.
Qed.

Lemma max_length_field_keeps_cap_positive_witness :
  onChange_maxContentLength Examples.fresh_plugin (js "-5") = Normal Examples.fresh_plugin.
Proof.
  destruct (@max_length_field_keeps_cap_positive Examples.fresh_plugin (js "-5")
              {| openaiApiKey := []; maxContentLength := 2000 |})
    as (p' & s' & Hrun & _ & Hpos & _ & [[Hsame _] | [Hread _]]).
  - vm_compute. lia.
  - reflexivity.
  - reflexivity.
  - rewrite Hsame in Hrun. exact Hrun.
  - exfalso.
    assert (Hp : parseInt (js "-5") = Normal (Int (-5))) by (vm_compute; reflexivity).
    rewrite Hp in Hread. injection Hread as Hneg. lia.
Defined.

(** ** The path on which aliases are written *)

Lemma guard_and_write_strings (w : World) (f : TFile) (E D : list jsstring) :
  existingAliases (getFileCache w f) = map JStr E ->
  D <> [] ->
  guard_and_write w f (JArr (map JStr D))
  = ([ProcessFrontMatter f (dedup (E ++ D)); Notice msg_updated], Normal tt).
Proof.
  intros HE HD. unfold guard_and_write, updateFrontMatter, combinedAliases.
  rewrite has_aliases_array. destruct D as [|d D]; [congruence|].
  cbn [map]. run_monad. cbn [spread]. rewrite HE.
  rewrite strings_of_app, strings_of_map.
  change (JStr d :: map JStr D) with (map JStr (d :: D)).
  rewrite strings_of_map. cbn. now rewrite Array_from_Set_dedup.
Qed.

(** X18. When the completion call returns a non-empty array of strings
    (a JSON array reply, or the comma-split of a plain one) and the cached
    aliases are strings, [addAliases] -- in both revisions -- writes the
    front matter once, with the existing aliases followed by the new ones,
    each at its first occurrence, and then shows the success notice. *)
Theorem discovered_aliases_are_written
  (w : World) (activeFile : TFile) (t : list Event) (E D : list jsstring) :
  getActiveFile w = Some activeFile ->
  openaiApiKey (settings w) <> [] ->
  existingAliases (getFileCache w activeFile) = map JStr E ->
  D <> [] ->
  (getAliases w (basename activeFile) (body_excerpt w activeFile)
   = (t, Normal (JArr (map JStr D))) ->
   addAliases w
   = (t ++ [ProcessFrontMatter activeFile (dedup (E ++ D)); Notice msg_updated],
      Normal tt))
  /\ (Part000.getDeclensions w (basename activeFile) = (t, Normal (JArr (map JStr D))) ->
      Part000.addAliases w
      = (t ++ [ProcessFrontMatter activeFile (dedup (E ++ D)); Notice msg_updated],
         Normal tt)).
Proof.
  intros Hfile Hkey HE HD.
  destruct (openaiApiKey (settings w)) as [|c key] eqn:Ek; [congruence|].
  split; intros Hget.
  - rewrite (addAliases_unfold w Hfile Ek), Hget. unfold bind.
    now rewrite (@guard_and_write_strings w activeFile E D HE HD).
  - rewrite (Part000_addAliases_unfold w Hfile Ek), Hget. unfold bind.
    now rewrite (@guard_and_write_strings w activeFile E D HE HD).
Qed.

Lemma discovered_aliases_are_written_witness :
  addAliases Examples.world_scenario_B
  = ([Fetch (alias_request (js "sk-test") (js "Лес") (js "Лес - это экосистема."))]
     ++ [ProcessFrontMatter Examples.note
           (dedup ([js "Лесок"] ++ [js "Лесной"; js "лесок"; js "лесная зона"]));
         Notice msg_updated], Normal tt).
Proof.
  destruct (@discovered_aliases_are_written Examples.world_scenario_B Examples.note
              [Fetch (alias_request (js "sk-test") (js "Лес") (js "Лес - это экосистема."))]
              [js "Лесок"] [js "Лесной"; js "лесок"; js "лесная зона"])
    as [Hmain _].
  - reflexivity.
  - discriminate.
  - reflexivity.
  - discriminate.
  - apply Hmain. vm_compute. reflexivity.
Defined.

(** X19. The length cap leaves a text that fits untouched, and cuts a
    longer one to exactly [maxContentLength] code units, the first ones. *)
Theorem limit_content_fits_or_cuts (text : jsstring) (maxLen : Z) :
  (0 <= maxLen)%Z ->
  ((jslength text <= maxLen)%Z -> limit_content text maxLen = text)
  /\ ((maxLen < jslength text)%Z ->
      jslength (limit_content text maxLen) = maxLen
      /\ exists cut, text = limit_content text maxLen ++ cut /\ cut <> []).
Proof.
  intros Hmax. unfold limit_content, substring0, jslength. split.
  - intros Hfit.
    destruct (Z.gtb_spec (Z.of_nat (List.length text)) maxLen); [lia | reflexivity].
  - intros Hlong.
    destruct (Z.gtb_spec (Z.of_nat (List.length text)) maxLen) as [_|]; [|lia].
    split.
    + rewrite length_firstn. lia.
    + exists (skipn (Z.to_nat maxLen) text).
      split; [now rewrite firstn_skipn|].
      intros Hnil. apply (f_equal (@List.length code_unit)) in Hnil.
      rewrite length_skipn in Hnil. simpl in Hnil. lia.
Qed.

Lemma limit_content_fits_or_cuts_witness :
  jslength (limit_content (js "Hello world") 5) = 5%Z.
Proof.
  destruct (@limit_content_fits_or_cuts (js "Hello world") 5) as [_ Hcut].
  - discriminate.
  - destruct Hcut as [Hlen _]; [reflexivity | exact Hlen].
Defined.
